(** * English Shadowing Tool: tokenizer, highlight synchronizer and dictionary lookup

    A shallow embedding of [js/app.js] (the display tokenizer, the highlight
    synchronizer and the shadowing controller) and of [js/dictionary.js]
    (normalisation, stemming and lookup), with the properties of the
    specification stated over it. *)

From Stdlib Require Import ZArith NArith String Ascii List Bool Lia.
From stdpp Require Import base option list countable gmap.
Import ListNotations.

Local Open Scope Z_scope.

(** ** JavaScript strings

    A JavaScript string is a sequence of UTF-16 code units.  The regular
    expressions of the program carry no [u] flag, so they work code unit by
    code unit, and so does this model. *)

Abbreviation codeunit := N (only parsing).
Abbreviation jsstring := (list N) (only parsing).

(** An ASCII literal as a JavaScript string. *)
Definition js (s : string) : jsstring :=
  map N_of_ascii (list_ascii_of_string s).

Definition between (lo hi c : codeunit) : bool :=
  ((lo <=? c) && (c <=? hi))%N.

(** [[a-z]] *)
Definition isLower (c : codeunit) : bool := between 97 122 c.
(** [[A-Z]] *)
Definition isUpper (c : codeunit) : bool := between 65 90 c.
(** [[0-9]] *)
Definition isDigit (c : codeunit) : bool := between 48 57 c.
Definition underscore : codeunit := 95%N.
Definition apostrophe : codeunit := 39%N.

(** [\w] is [[A-Za-z0-9_]]. *)
Definition isWordChar (c : codeunit) : bool :=
  isLower c || isUpper c || isDigit c || (c =? underscore)%N.

(** [\s]: the WhiteSpace and LineTerminator code points of ECMAScript, which
    are also what [String.prototype.trim] strips. *)
Definition isSpace (c : codeunit) : bool :=
  between 9 13 c || (c =? 32)%N || (c =? 160)%N || (c =? 5760)%N
  || between 8192 8202 c || (c =? 8232)%N || (c =? 8233)%N
  || (c =? 8239)%N || (c =? 8287)%N || (c =? 12288)%N || (c =? 65279)%N.

(** ** The tokenizer: [text.match(/[\w']+|[^\w\s]+|\s+/g) || []] *)

(** The three alternatives of the expression, as character classes. *)
Definition inWordClass (c : codeunit) : bool :=          (* [\w'] *)
  isWordChar c || (c =? apostrophe)%N.
Definition inPunctClass (c : codeunit) : bool :=         (* [^\w\s] *)
  negb (isWordChar c) && negb (isSpace c).
Definition inSpaceClass (c : codeunit) : bool := isSpace c.   (* \s *)

(** The longest prefix of [s] inside the class [p], and what follows it. *)
Fixpoint span (p : codeunit -> bool) (s : jsstring) : jsstring * jsstring :=
  match s with
  | c :: s' =>
      if p c then let '(m, r) := span p s' in (c :: m, r) else ([], s)
  | [] => ([], [])
  end.

(** [[p]+] at the start of [s]: greedy, at least one code unit. *)
Definition plus (p : codeunit -> bool) (s : jsstring)
  : option (jsstring * jsstring) :=
  match span p s with
  | ([], _) => None
  | (m, r) => Some (m, r)
  end.

(** The expression tried at the start of [s]: the alternatives in the order
    in which they are written, the first that matches is taken. *)
Definition execAt (s : jsstring) : option (jsstring * jsstring) :=
  match plus inWordClass s with
  | Some r => Some r
  | None =>
      match plus inPunctClass s with
      | Some r => Some r
      | None => plus inSpaceClass s
      end
  end.

(** The global match: after a match the search goes on behind it, where the
    expression fails the search moves one code unit on.  Each round consumes
    at least one code unit, so [length s] rounds are enough. *)
Fixpoint matchAll (fuel : nat) (s : jsstring) : list jsstring :=
  match fuel with
  | O => []
  | S fuel' =>
      match s with
      | [] => []
      | _ :: s' =>
          match execAt s with
          | Some (m, r) => m :: matchAll fuel' r
          | None => matchAll fuel' s'
          end
      end
  end.

Definition tokenize (text : jsstring) : list jsstring :=
  matchAll (length text) text.

(** The two tests of [prepareDisplay] and [handleWordBoundary]:
    [/^\s+$/.test(word)] and [/^[^\w]+$/.test(word)]. *)
Definition isWhitespaceToken (word : jsstring) : bool :=
  match word with [] => false | _ => forallb isSpace word end.
Definition isNonWordToken (word : jsstring) : bool :=
  match word with [] => false | _ => forallb (fun c => negb (isWordChar c)) word end.

Inductive kind := Word | Punctuation | Whitespace.

(** The branch that the [forEach] of [prepareDisplay] takes for a token. *)
Definition classify (word : jsstring) : kind :=
  if isWhitespaceToken word then Whitespace
  else if isNonWordToken word then Punctuation
  else Word.

(** ** The application state of [app.js]

    The module-level variables of the application, and the parts of its
    collaborators that the playback functions read or write: the children of
    the display element, the status line, the buttons, the end callback
    registered with the speech module, the utterance being spoken and the
    pending [setTimeout] closures. *)

(** A [span.word] of the display: its text and whether its class list holds
    ['active']. *)
Record element := mkElement { textContent : jsstring; active : bool }.

(** A child of [shadowingDisplay].  A word span is the very object held in
    [wordElements], so it is named by its position there. *)
Inductive node :=
| TextNode (text : jsstring)
| PunctuationSpan (text : jsstring)
| WordSpan (index : nat).

(** The two playback rates of the program. *)
Inductive rate := Rate10 (* 1.0 *) | Rate07 (* 0.7 *).

(** The interval registered by [startHighlighting]: its closure variable
    [wordIndex] and the rate its period was computed from (the period itself,
    a floating point number, is left out). *)
Record timer := mkTimer { timerRate : rate; wordIndex : nat }.

(** What [TTS.setOnEnd] was last given. *)
Inductive endCallback :=
| HandleSpeechEnd                      (* handleSpeechEnd *)
| NormalPhaseEnd (text : jsstring)     (* the first closure of startShadowingMode *)
| SlowPhaseEnd.                        (* () => handleShadowingComplete() *)

Record state := mkState {
  currentText : jsstring;
  words : list jsstring;
  wordElements : list element;
  currentWordIndex : Z;
  isShadowingMode : bool;
  highlightTimer : option timer;
  boundaryFired : bool;
  isSingleWordMode : bool;
  shadowingDisplay : list node;
  statusText : string;
  buttonsDisabled : bool;
  onEnd : endCallback;
  currentUtterance : option (jsstring * rate);
  timeouts : list (Z * jsstring)
}.

Definition set_currentText (v : jsstring) (s : state) : state :=
  mkState v (words s) (wordElements s) (currentWordIndex s) (isShadowingMode s)
    (highlightTimer s) (boundaryFired s) (isSingleWordMode s) (shadowingDisplay s)
    (statusText s) (buttonsDisabled s) (onEnd s) (currentUtterance s) (timeouts s).
Definition set_words (v : list jsstring) (s : state) : state :=
  mkState (currentText s) v (wordElements s) (currentWordIndex s) (isShadowingMode s)
    (highlightTimer s) (boundaryFired s) (isSingleWordMode s) (shadowingDisplay s)
    (statusText s) (buttonsDisabled s) (onEnd s) (currentUtterance s) (timeouts s).
Definition set_wordElements (v : list element) (s : state) : state :=
  mkState (currentText s) (words s) v (currentWordIndex s) (isShadowingMode s)
    (highlightTimer s) (boundaryFired s) (isSingleWordMode s) (shadowingDisplay s)
    (statusText s) (buttonsDisabled s) (onEnd s) (currentUtterance s) (timeouts s).
Definition set_currentWordIndex (v : Z) (s : state) : state :=
  mkState (currentText s) (words s) (wordElements s) v (isShadowingMode s)
    (highlightTimer s) (boundaryFired s) (isSingleWordMode s) (shadowingDisplay s)
    (statusText s) (buttonsDisabled s) (onEnd s) (currentUtterance s) (timeouts s).
Definition set_isShadowingMode (v : bool) (s : state) : state :=
  mkState (currentText s) (words s) (wordElements s) (currentWordIndex s) v
    (highlightTimer s) (boundaryFired s) (isSingleWordMode s) (shadowingDisplay s)
    (statusText s) (buttonsDisabled s) (onEnd s) (currentUtterance s) (timeouts s).
Definition set_highlightTimer (v : option timer) (s : state) : state :=
  mkState (currentText s) (words s) (wordElements s) (currentWordIndex s) (isShadowingMode s)
    v (boundaryFired s) (isSingleWordMode s) (shadowingDisplay s)
    (statusText s) (buttonsDisabled s) (onEnd s) (currentUtterance s) (timeouts s).
Definition set_boundaryFired (v : bool) (s : state) : state :=
  mkState (currentText s) (words s) (wordElements s) (currentWordIndex s) (isShadowingMode s)
    (highlightTimer s) v (isSingleWordMode s) (shadowingDisplay s)
    (statusText s) (buttonsDisabled s) (onEnd s) (currentUtterance s) (timeouts s).
Definition set_isSingleWordMode (v : bool) (s : state) : state :=
  mkState (currentText s) (words s) (wordElements s) (currentWordIndex s) (isShadowingMode s)
    (highlightTimer s) (boundaryFired s) v (shadowingDisplay s)
    (statusText s) (buttonsDisabled s) (onEnd s) (currentUtterance s) (timeouts s).
Definition set_shadowingDisplay (v : list node) (s : state) : state :=
  mkState (currentText s) (words s) (wordElements s) (currentWordIndex s) (isShadowingMode s)
    (highlightTimer s) (boundaryFired s) (isSingleWordMode s) v
    (statusText s) (buttonsDisabled s) (onEnd s) (currentUtterance s) (timeouts s).
Definition set_statusText (v : string) (s : state) : state :=
  mkState (currentText s) (words s) (wordElements s) (currentWordIndex s) (isShadowingMode s)
    (highlightTimer s) (boundaryFired s) (isSingleWordMode s) (shadowingDisplay s)
    v (buttonsDisabled s) (onEnd s) (currentUtterance s) (timeouts s).
Definition set_buttonsDisabled (v : bool) (s : state) : state :=
  mkState (currentText s) (words s) (wordElements s) (currentWordIndex s) (isShadowingMode s)
    (highlightTimer s) (boundaryFired s) (isSingleWordMode s) (shadowingDisplay s)
    (statusText s) v (onEnd s) (currentUtterance s) (timeouts s).
Definition set_onEnd (v : endCallback) (s : state) : state :=
  mkState (currentText s) (words s) (wordElements s) (currentWordIndex s) (isShadowingMode s)
    (highlightTimer s) (boundaryFired s) (isSingleWordMode s) (shadowingDisplay s)
    (statusText s) (buttonsDisabled s) v (currentUtterance s) (timeouts s).
Definition set_currentUtterance (v : option (jsstring * rate)) (s : state) : state :=
  mkState (currentText s) (words s) (wordElements s) (currentWordIndex s) (isShadowingMode s)
    (highlightTimer s) (boundaryFired s) (isSingleWordMode s) (shadowingDisplay s)
    (statusText s) (buttonsDisabled s) (onEnd s) v (timeouts s).
Definition set_timeouts (v : list (Z * jsstring)) (s : state) : state :=
  mkState (currentText s) (words s) (wordElements s) (currentWordIndex s) (isShadowingMode s)
    (highlightTimer s) (boundaryFired s) (isSingleWordMode s) (shadowingDisplay s)
    (statusText s) (buttonsDisabled s) (onEnd s) (currentUtterance s) v.

(** The state once [init] has run: nothing displayed, nothing playing. *)
Definition initial : state :=
  mkState [] [] [] (-1) false None false false [] "Ready" false
    HandleSpeechEnd None [].

(** Statements run one after the other on the state. *)
Notation "s |> f" := (f s) (at level 50, left associativity, only parsing).

(** *** Collaborators: status line, buttons, speech module *)

(** [updateStatus(message, mode)]: the text of the status line; the class
    list of the status bar, which nothing reads, is left out. *)
Definition updateStatus (message : string) (s : state) : state :=
  set_statusText message s.

Definition disableButtons (disabled : bool) (s : state) : state :=
  set_buttonsDisabled disabled s.

(** [TTS.stop]: [speechSynthesis.cancel(); currentUtterance = null]. *)
Definition TTS_stop (s : state) : state := set_currentUtterance None s.

(** [TTS.speak(text, rate)]: cancels what is being spoken, then speaks. *)
Definition TTS_speak (text : jsstring) (r : rate) (s : state) : state :=
  s |> TTS_stop |> set_currentUtterance (Some (text, r)).
Definition TTS_speakNormal (text : jsstring) : state -> state := TTS_speak text Rate10.
Definition TTS_speakSlow (text : jsstring) : state -> state := TTS_speak text Rate07.
Definition TTS_setOnEnd (callback : endCallback) (s : state) : state :=
  set_onEnd callback s.

(** [String.prototype.trim]. *)
Fixpoint trimStart (s : jsstring) : jsstring :=
  match s with
  | c :: s' => if isSpace c then trimStart s' else s
  | [] => []
  end.
Definition trim (s : jsstring) : jsstring := rev (trimStart (rev (trimStart s))).

(** [getCurrentText], on the value of the input field. *)
Definition getCurrentText (textInput : jsstring) : jsstring := trim textInput.

(** *** The display *)

(** One round of the [forEach] of [prepareDisplay], on the children of the
    display and on [wordElements]. *)
Definition renderWord (acc : list node * list element) (word : jsstring)
  : list node * list element :=
  if isWhitespaceToken word then (acc.1 ++ [TextNode (js " ")], acc.2)
  else if isNonWordToken word then (acc.1 ++ [PunctuationSpan word], acc.2)
  else (acc.1 ++ [WordSpan (length acc.2)], acc.2 ++ [mkElement word false]).

Definition prepareDisplay (text : jsstring) (s : state) : state :=
  let ws := tokenize text in
  let rendered := fold_left renderWord ws ([], []) in
  s |> set_currentText text
    |> set_words ws
    |> set_shadowingDisplay rendered.1
    |> set_wordElements rendered.2
    |> set_currentWordIndex (-1)
    |> set_boundaryFired false.

(** *** Highlighting *)

(** [index >= 0 && index < wordElements.length] *)
Definition inBounds (index : Z) (s : state) : bool :=
  (0 <=? index) && (index <? Z.of_nat (length (wordElements s))).

(** [classList.add('active')] and [classList.remove('active')]. *)
Definition setActive (b : bool) (e : element) : element :=
  mkElement (textContent e) b.

Definition highlightWord (index : Z) (s : state) : state :=
  let s :=
    if inBounds (currentWordIndex s) s
    then set_wordElements
           (alter (setActive false) (Z.to_nat (currentWordIndex s)) (wordElements s)) s
    else s in
  let s := set_currentWordIndex index s in
  if inBounds index s
  then set_wordElements (alter (setActive true) (Z.to_nat index) (wordElements s)) s
  else s.

Definition clearHighlights (s : state) : state :=
  s |> set_wordElements (map (setActive false) (wordElements s))
    |> set_currentWordIndex (-1).

Definition stopHighlighting (s : state) : state :=
  match highlightTimer s with
  | Some _ => set_highlightTimer None s
  | None => s
  end.

Definition startHighlighting (r : rate) (s : state) : state :=
  let s := stopHighlighting s in
  if (length (wordElements s) =? 0)%nat then s
  else s |> highlightWord 0 |> set_highlightTimer (Some (mkTimer r 1)).

(** One run of the interval callback of [startHighlighting]; without a
    registered interval there is no callback to run. *)
Definition timerTick (s : state) : state :=
  match highlightTimer s with
  | None => s
  | Some tm =>
      if boundaryFired s then s
      else if (wordIndex tm <? length (wordElements s))%nat
      then s |> highlightWord (Z.of_nat (wordIndex tm))
             |> set_highlightTimer (Some (mkTimer (timerRate tm) (S (wordIndex tm))))
      else stopHighlighting s
  end.

(** The loop of [handleWordBoundary] from position [i] on: [ws] is
    [words.slice(i)], so [i < words.length - 1] says that more than one word
    is left.  [Some wordIdx] is the call [highlightWord(wordIdx)], [None] is
    the loop running to its end. *)
Fixpoint findSpokenWord (charIndex : Z) (ws : list jsstring) (charCount wordIdx : Z)
  : option Z :=
  match ws with
  | [] => None
  | word :: rest =>
      if isWhitespaceToken word || isNonWordToken word
      then findSpokenWord charIndex rest (charCount + Z.of_nat (length word)) wordIdx
      else if (charCount <=? charIndex) && (charIndex <? charCount + Z.of_nat (length word))
      then Some wordIdx
      else
        let charCount := charCount + Z.of_nat (length word) in
        let charCount := match rest with [] => charCount | _ :: _ => charCount + 1 end in
        findSpokenWord charIndex rest charCount (wordIdx + 1)
  end.

Definition handleWordBoundary (charIndex charLength : Z) (s : state) : state :=
  if isSingleWordMode s then s
  else
    let s := set_boundaryFired true s in
    match findSpokenWord charIndex (words s) 0 0 with
    | Some wordIdx => highlightWord wordIdx s
    | None => s
    end.

(** *** Playback *)

Definition handleSpeechEnd (s : state) : state :=
  if isSingleWordMode s then set_isSingleWordMode false s
  else s |> stopHighlighting |> clearHighlights |> disableButtons false
         |> updateStatus "Done. Click words to learn more.".

Definition handleShadowingComplete (s : state) : state :=
  s |> set_isShadowingMode false |> stopHighlighting |> clearHighlights
    |> disableButtons false
    |> updateStatus "Shadowing complete! Click words to learn more."
    |> TTS_setOnEnd HandleSpeechEnd.

Definition handleStop (s : state) : state :=
  s |> TTS_stop |> set_isShadowingMode false |> stopHighlighting |> clearHighlights
    |> disableButtons false |> updateStatus "Stopped"
    |> TTS_setOnEnd HandleSpeechEnd.

Definition startShadowingMode (text : jsstring) (s : state) : state :=
  s |> set_isShadowingMode true |> disableButtons true
    |> updateStatus "Shadowing: Listen first..."
    |> TTS_setOnEnd (NormalPhaseEnd text)
    |> TTS_speakNormal text.

(** The delay of the pause between the two phases, in milliseconds. *)
Definition restartDelay : Z := 1000.

(** The closure given to [TTS.setOnEnd] for the first phase. *)
Definition normalPhaseEnded (text : jsstring) (s : state) : state :=
  if negb (isShadowingMode s) then s
  else s |> updateStatus "Shadowing: Get ready to follow..."
         |> set_timeouts (timeouts s ++ [(restartDelay, text)]).

(** The closure given to [setTimeout]. *)
Definition restartElapsed (text : jsstring) (s : state) : state :=
  if negb (isShadowingMode s) then s
  else s |> updateStatus "Shadowing: Follow along!"
         |> TTS_setOnEnd SlowPhaseEnd
         |> set_boundaryFired false
         |> startHighlighting Rate07
         |> TTS_speakSlow text.

Definition handlePlay (textInput : jsstring) (s : state) : state :=
  let text := getCurrentText textInput in
  match text with
  | [] => updateStatus "Please enter some text" s
  | _ :: _ =>
      s |> prepareDisplay text |> disableButtons true |> updateStatus "Playing..."
        |> startHighlighting Rate10 |> TTS_speakNormal text
  end.

Definition handleSlow (textInput : jsstring) (s : state) : state :=
  let text := getCurrentText textInput in
  match text with
  | [] => updateStatus "Please enter some text" s
  | _ :: _ =>
      s |> prepareDisplay text |> disableButtons true |> updateStatus "Playing (slow)..."
        |> startHighlighting Rate07 |> TTS_speakSlow text
  end.

Definition handleShadowing (textInput : jsstring) (s : state) : state :=
  let text := getCurrentText textInput in
  match text with
  | [] => updateStatus "Please enter some text" s
  | _ :: _ => s |> prepareDisplay text |> startShadowingMode text
  end.

(** The play button of the word panel ([handleBreakdownClick]). *)
Definition playWord (word : jsstring) (s : state) : state :=
  match word with
  | [] => s
  | _ :: _ => s |> set_isSingleWordMode true |> TTS_speakNormal word
  end.

(** *** What the environment delivers

    The callbacks run one at a time; which one runs next is the choice of the
    browser, the speech engine and the user.  A browser delivers no click on
    a disabled button; the events here are not held back by
    [buttonsDisabled], so what is proved of all runs covers the runs of the
    browser. *)
Inductive event :=
| ClickPlay (textInput : jsstring)
| ClickSlow (textInput : jsstring)
| ClickShadowing (textInput : jsstring)
| ClickStop
| ClickPlayWord (word : jsstring)
| WordBoundary (charIndex charLength : Z)   (* utterance.onboundary, name 'word' *)
| UtteranceEnd                              (* utterance.onend and utterance.onerror *)
| IntervalElapsed                           (* the setInterval callback *)
| TimeoutElapsed.                           (* the oldest pending setTimeout callback *)

Definition runOnEnd (s : state) : state :=
  match onEnd s with
  | HandleSpeechEnd => handleSpeechEnd s
  | NormalPhaseEnd text => normalPhaseEnded text s
  | SlowPhaseEnd => handleShadowingComplete s
  end.

Definition step (s : state) (e : event) : state :=
  match e with
  | ClickPlay textInput => handlePlay textInput s
  | ClickSlow textInput => handleSlow textInput s
  | ClickShadowing textInput => handleShadowing textInput s
  | ClickStop => handleStop s
  | ClickPlayWord word => playWord word s
  | WordBoundary charIndex charLength => handleWordBoundary charIndex charLength s
  | UtteranceEnd => s |> set_currentUtterance None |> runOnEnd
  | IntervalElapsed => timerTick s
  | TimeoutElapsed =>
      match timeouts s with
      | [] => s
      | (_, text) :: pending => s |> set_timeouts pending |> restartElapsed text
      end
  end.

Definition run (s : state) (es : list event) : state := fold_left step es s.

(** ** The dictionary of [dictionary.js] *)

Module Dictionary.

(** A record of the store, as [getFallbackData] builds it and
    [renderWordInfo] reads it. *)
Record breakdownParts := mkBreakdown {
  prefix : option jsstring;
  prefixMeaning : option jsstring;
  root : option jsstring;
  rootMeaning : option jsstring;
  suffix : option jsstring;
  suffixMeaning : option jsstring
}.

Record entry := mkEntry {
  translation : option jsstring;
  breakdown : option breakdownParts;
  association : option jsstring;
  family : list jsstring
}.

(** [wordData] is a plain object: reading [wordData[key]] finds the record
    stored under [key] or, failing that, a member of [Object.prototype]. *)
Inductive property :=
| Own (e : entry)
| Inherited.

Definition objectPrototype : list jsstring :=
  map js ["constructor"; "hasOwnProperty"; "isPrototypeOf";
          "propertyIsEnumerable"; "toLocaleString"; "toString"; "valueOf";
          "__proto__"; "__defineGetter__"; "__defineSetter__";
          "__lookupGetter__"; "__lookupSetter__"]%string.

Definition get (wordData : gmap jsstring entry) (key : jsstring) : option property :=
  match wordData !! key with
  | Some e => Some (Own e)
  | None => if bool_decide (key ∈ objectPrototype) then Some Inherited else None
  end.

(** The test [if (wordData[key])]: records and the members of
    [Object.prototype] are objects, so what is found is truthy. *)
Definition truthy (wordData : gmap jsstring entry) (key : jsstring) : bool :=
  match get wordData key with Some _ => true | None => false end.

(** The result of [lookup]: [word], [originalWord] where stemming applied,
    and the fields spread from [wordData[word]] (an inherited member has no
    enumerable field of its own to spread). *)
Record wordInfo := mkWordInfo {
  word : jsstring;
  originalWord : option jsstring;
  fields : option entry
}.

Definition spread (p : property) : option entry :=
  match p with Own e => Some e | Inherited => None end.

(** [String.prototype.toLowerCase] on one code unit.  Of the case table of
    Unicode only the code points whose lower-case form contains a letter of
    [a-z] are written out: [A-Z], U+0130 (which becomes [i] followed by
    U+0307) and U+212A (the Kelvin sign, which becomes [k]).  Every other
    code point has a lower-case form outside [a-z], which [normalize]
    strips again; it is left as it is. *)
Definition lowerCase (c : codeunit) : jsstring :=
  if isUpper c then [(c + 32)%N]
  else if (c =? 304)%N then [105%N; 775%N]
  else if (c =? 8490)%N then [107%N]
  else [c].

Definition toLowerCase (w : jsstring) : jsstring := flat_map lowerCase w.

(** [word.toLowerCase().replace(/[^a-z]/g, '')] *)
Definition normalize (w : jsstring) : jsstring :=
  List.filter isLower (toLowerCase w).

Definition suffixes : list (jsstring * nat) :=
  [(js "ing", 4); (js "ed", 3); (js "s", 3); (js "es", 4); (js "er", 4);
   (js "est", 5); (js "ly", 4); (js "tion", 5); (js "ment", 5)]%nat.

(** [w.endsWith(sfx)] *)
Definition endsWith (w sfx : jsstring) : bool :=
  (length sfx <=? length w)%nat
  && bool_decide (drop (length w - length sfx) w = sfx).

(** [w.slice(0, -n)]; [-0] is [0], so [w.slice(0, -0)] is empty. *)
Definition sliceEnd (w : jsstring) (n : nat) : jsstring :=
  match n with
  | O => []
  | S _ => take (length w - n) w
  end.

(** [base.length >= 2 && base[base.length - 1] === base[base.length - 2]] *)
Definition doubled (base : jsstring) : bool :=
  (2 <=? length base)%nat
  && bool_decide (base !! (length base - 1)%nat = base !! (length base - 2)%nat).

(** The loop of [getBaseForm] over the suffixes still to be tried. *)
Fixpoint getBaseFormFrom (wordData : gmap jsstring entry) (w : jsstring)
    (todo : list (jsstring * nat)) : option jsstring :=
  match todo with
  | [] => None
  | (sfx, minLength) :: todo' =>
      if (minLength <=? length w)%nat && endsWith w sfx then
        let base := sliceEnd w (length sfx) in
        if truthy wordData base then Some base
        else if doubled base && truthy wordData (sliceEnd base 1)
        then Some (sliceEnd base 1)
        else if truthy wordData (base ++ js "e") then Some (base ++ js "e")
        else getBaseFormFrom wordData w todo'
      else getBaseFormFrom wordData w todo'
  end.

Definition getBaseForm (wordData : gmap jsstring entry) (w : jsstring)
  : option jsstring :=
  getBaseFormFrom wordData w suffixes.

Definition lookup (wordData : gmap jsstring entry) (w : jsstring)
  : option wordInfo :=
  match w with
  | [] => None
  | _ :: _ =>
      let normalized := normalize w in
      match get wordData normalized with
      | Some p => Some (mkWordInfo normalized None (spread p))
      | None =>
          match getBaseForm wordData normalized with
          | Some baseForm =>
              match baseForm, get wordData baseForm with
              | _ :: _, Some p =>
                  Some (mkWordInfo baseForm (Some normalized) (spread p))
              | _, _ => None
              end
          | None => None
          end
      end
  end.

(** [has] *)
Definition has (wordData : gmap jsstring entry) (w : jsstring) : bool :=
  match lookup wordData w with Some _ => true | None => false end.

End Dictionary.

(** ** The statements of the specification, in its own words *)

(** *** Tokenizer (section 4.1)

    Word-characters are "letters, digits, apostrophe"; a token is a maximal
    run of word-characters (Word), of whitespace (Whitespace) or of anything
    else (Punctuation). *)

#[global] Instance kind_eq_dec : EqDecision kind.
Proof. solve_decision. Defined.

Definition specWordChar (c : codeunit) : bool :=
  isLower c || isUpper c || isDigit c || (c =? apostrophe)%N.

Definition specKind (c : codeunit) : kind :=
  if specWordChar c then Word
  else if isSpace c then Whitespace
  else Punctuation.

(** The maximal runs of characters of one kind. *)
Fixpoint specTokens (text : jsstring) : list (kind * jsstring) :=
  match text with
  | [] => []
  | c :: text' =>
      match specTokens text' with
      | (k, t) :: ts =>
          if bool_decide (specKind c = k) then (k, c :: t) :: ts
          else (specKind c, [c]) :: (k, t) :: ts
      | [] => [(specKind c, [c])]
      end
  end.

(** The tokens of the program with the kind under which they are rendered. *)
Definition tokens (text : jsstring) : list (kind * jsstring) :=
  map (fun t => (classify t, t)) (tokenize text).

(** The class a token of the program is drawn from: its first code unit
    fixes it, in the order of the alternatives. *)
Definition tokenClass (c : codeunit) : codeunit -> bool :=
  if inWordClass c then inWordClass
  else if inPunctClass c then inPunctClass
  else inSpaceClass.

(** [t] is a run of the class [p] that cannot be extended into [following]. *)
Definition maximalRun (p : codeunit -> bool) (t following : jsstring) : Prop :=
  forallb p t = true /\
  match following with
  | [] => True
  | d :: _ => p d = false
  end.

(** *** Stemmer (section 4.2, step 3)

    For each suffix that applies, in priority order: the base, then the base
    without its doubled last letter, then the base with a silent e. *)
Definition specSuffixOrder : list jsstring :=
  map js ["ing"; "ed"; "s"; "es"; "er"; "est"; "ly"; "tion"; "ment"]%string.

Definition specCandidatesFor (w : jsstring) (entry : jsstring * nat) : list jsstring :=
  let '(sfx, minLength) := entry in
  if (minLength <=? length w)%nat && Dictionary.endsWith w sfx then
    let base := Dictionary.sliceEnd w (length sfx) in
    [base]
    ++ (if Dictionary.doubled base then [Dictionary.sliceEnd base 1] else [])
    ++ [base ++ js "e"]
  else [].

Definition specCandidates (w : jsstring) : list jsstring :=
  flat_map (specCandidatesFor w) Dictionary.suffixes.

(** *** Highlight state (sections 3 and 4.3) *)

(** The word elements that carry the highlight. *)
Definition activeElements (s : state) : list element :=
  List.filter active (wordElements s).

(** Whatever element is highlighted is the one [currentWordIndex] names. *)
Definition highlightAtIndex (s : state) : Prop :=
  forall (i : nat) (e : element),
    wordElements s !! i = Some e -> active e = true ->
    currentWordIndex s = Z.of_nat i.

(** The index is -1 and nothing is highlighted, or it is in bounds and names
    a highlighted element. *)
Definition indexNamesHighlight (s : state) : Prop :=
  (currentWordIndex s = -1 /\ activeElements s = [])
  \/ (0 <= currentWordIndex s < Z.of_nat (length (wordElements s))
      /\ active <$> (wordElements s !! Z.to_nat (currentWordIndex s)) = Some true).

Definition singleActiveHighlight (s : state) : Prop :=
  (length (activeElements s) <= 1)%nat /\ indexNamesHighlight s.

(** A token for which [prepareDisplay] makes a word element, and which
    [handleWordBoundary] counts. *)
Definition isWordToken (word : jsstring) : bool :=
  negb (isWhitespaceToken word || isNonWordToken word).

(** What holds of the display in every state the program reaches. *)
Definition displayInvariant (s : state) : Prop :=
  highlightAtIndex s
  /\ indexNamesHighlight s
  /\ length (wordElements s) = length (List.filter isWordToken (words s)).

Inductive highlightOp :=
| HighlightWord (index : Z)
| ClearHighlights.

Definition applyOp (s : state) (op : highlightOp) : state :=
  match op with
  | HighlightWord index => highlightWord index s
  | ClearHighlights => clearHighlights s
  end.

Definition opInBounds (s : state) (op : highlightOp) : Prop :=
  match op with
  | HighlightWord index => inBounds index s = true
  | ClearHighlights => True
  end.

(** The reset state of the synchronizer: no active word, no ticker, no
    authoritative signal seen. *)
Definition sessionReset (s : state) : Prop :=
  currentWordIndex s = -1 /\ highlightTimer s = None /\ boundaryFired s = false.

(** The state of a playback session: tokens, active word, boundary flag and
    ticker, and with them what else the playback functions keep. *)
Definition sessionState (s : state) :=
  (currentText s, words s, wordElements s, currentWordIndex s,
   isShadowingMode s, highlightTimer s, boundaryFired s, isSingleWordMode s,
   shadowingDisplay s, buttonsDisabled s, onEnd s, currentUtterance s, timeouts s).

(** The events that begin a playback, and with it a session of the
    synchronizer: the three requests and the restart of the shadowing run. *)
Definition startsPlayback (e : event) : bool :=
  match e with
  | ClickPlay _ | ClickSlow _ | ClickShadowing _ | TimeoutElapsed => true
  | _ => false
  end.

(** ** The runs of the examples *)

Definition helloWorld : jsstring := js "Hello world!".

(** Play on "Hello world!". *)
Definition playing : state := handlePlay helloWorld initial.

(** A shadowing run on "Hello world!": the request, a boundary notification
    in the normal-speed phase, the end of that phase, the restart. *)
Definition shadowingRequested : state := handleShadowing helloWorld initial.
Definition shadowingBoundary : state := step shadowingRequested (WordBoundary 0 5).
Definition shadowingPaused : state := step shadowingBoundary UtteranceEnd.
Definition shadowingRestarted : state := step shadowingPaused TimeoutElapsed.

(** Play, a boundary notification, stop. *)
Definition stopped : state :=
  run initial [ClickPlay helloWorld; WordBoundary 0 5; ClickStop].

(** ** The voices of [tts.js] *)

Module TTS.

(** A [SpeechSynthesisVoice], as far as the module reads it. *)
Record voice := mkVoice { name : jsstring; lang : jsstring }.

(** The variables of the module that [loadVoices] writes. *)
Record voices_state := mkVoices {
  voices : list voice;
  englishVoice : option voice;
  isReady : bool
}.

(** [w.startsWith(p)] *)
Definition startsWith (w p : jsstring) : bool :=
  bool_decide (take (length p) w = p).

(** [a || b] on what [find] returns: a voice is an object, hence truthy. *)
Definition orElse (a b : option voice) : option voice :=
  match a with Some v => Some v | None => b end.

(** The closure [loadVoices] of [init], on what [speechSynthesis.getVoices()]
    returns; the promise it resolves is left out. *)
Definition loadVoices (available : list voice) (t : voices_state) : voices_state :=
  let found :=
    orElse (List.find (fun v => bool_decide (lang v = js "en-US")) available)
      (orElse (List.find (fun v => bool_decide (lang v = js "en-GB")) available)
         (List.find (fun v => startsWith (lang v) (js "en")) available)) in
  match found with
  | Some v => mkVoices available (Some v) true
  | None =>
      match available with
      | v0 :: _ => mkVoices available (Some v0) true
      | [] => mkVoices available None (isReady t)
      end
  end.

End TTS.

(** ** Words for the further properties *)

(** Nothing plays and nothing is highlighted: the state in which the buttons
    are enabled again. *)
Definition idle (s : state) : Prop :=
  currentWordIndex s = -1 /\ activeElements s = [] /\ highlightTimer s = None
  /\ isShadowingMode s = false /\ buttonsDisabled s = false
  /\ currentUtterance s = None /\ onEnd s = HandleSpeechEnd.

(** The two signals of the synchronizer. *)
Definition isSignal (e : event) : bool :=
  match e with
  | IntervalElapsed | WordBoundary _ _ => true
  | _ => false
  end.

Definition isWordBoundary (e : event) : bool :=
  match e with
  | WordBoundary _ _ => true
  | _ => false
  end.

(** No playback is under way, though a word may still carry the highlight:
    [idle] without its two conditions on the highlight. *)
Definition quiet (s : state) : Prop :=
  highlightTimer s = None /\ isShadowingMode s = false /\ buttonsDisabled s = false
  /\ currentUtterance s = None /\ onEnd s = HandleSpeechEnd.

(** The callbacks, all four of them; a request of the user is none.  Each of
    them can still arrive when a playback is over: [speechSynthesis.cancel]
    does not hold back the notifications already queued, [stopHighlighting]
    clears the interval but not a tick already queued, and nothing clears the
    timeout of a shadowing run. *)
Definition isLateCallback (e : event) : bool :=
  match e with
  | WordBoundary _ _ | UtteranceEnd | IntervalElapsed | TimeoutElapsed => true
  | _ => false
  end.

(** The [dataset.index] of the word spans of the display, in order. *)
Definition wordSpanIndices (nodes : list node) : list nat :=
  flat_map (fun n => match n with WordSpan i => [i] | _ => [] end) nodes.

(** * Properties *)

(** ** Tokenizer *)

Section Span.
Variable p : codeunit -> bool.

Lemma span_app (s : jsstring) : (span p s).1 ++ (span p s).2 = s.
Proof.
  induction s as [|c s IH]; simpl; [reflexivity|].
  destruct (p c); [|reflexivity].
  destruct (span p s) as [m r]; simpl in *. by rewrite IH.
Qed.

Lemma span_forallb (s : jsstring) : forallb p (span p s).1 = true.
Proof.
  induction s as [|c s IH]; simpl; [reflexivity|].
  destruct (p c) eqn:Hc; [|reflexivity].
  destruct (span p s) as [m r]; simpl in *. by rewrite Hc.
Qed.

Lemma span_maximal (s : jsstring) : maximalRun p (span p s).1 (span p s).2.
Proof.
  split; [apply span_forallb|].
  induction s as [|c s IH]; simpl; [exact I|].
  destruct (p c) eqn:Hc; [|exact Hc].
  destruct (span p s) as [m r]; exact IH.
Qed.

Lemma span_head (c : codeunit) (s : jsstring) :
  p c = true -> exists m, (span p (c :: s)).1 = c :: m.
Proof.
  intros Hc. simpl. rewrite Hc. destruct (span p s) as [m r]. by exists m.
Qed.

Lemma plus_head (c : codeunit) (s : jsstring) :
  p c = true ->
  exists m r, plus p (c :: s) = Some (c :: m, r)
              /\ c :: m ++ r = c :: s /\ maximalRun p (c :: m) r.
Proof.
  intros Hc. unfold plus.
  pose proof (span_app (c :: s)) as Happ.
  pose proof (span_maximal (c :: s)) as Hmax.
  destruct (span_head c s Hc) as [m Hm].
  destruct (span p (c :: s)) as [m' r]; simpl in *; subst m'.
  exists m, r. auto.
Qed.

Lemma plus_fail (c : codeunit) (s : jsstring) :
  p c = false -> plus p (c :: s) = None.
Proof. intros Hc. unfold plus. simpl. by rewrite Hc. Qed.
End Span.

(** Every code unit lies in the class of one of the alternatives. *)
Lemma tokenClass_self (c : codeunit) : tokenClass c c = true.
Proof.
  unfold tokenClass.
  destruct (inWordClass c) eqn:H1; [exact H1|].
  destruct (inPunctClass c) eqn:H2; [exact H2|].
  unfold inWordClass, inPunctClass, inSpaceClass in *.
  destruct (isWordChar c), (isSpace c); simpl in *; congruence.
Qed.

(** The expression matches at every position, and what it matches is the
    longest run of the class chosen by the first code unit. *)
Lemma execAt_cons (c : codeunit) (s : jsstring) :
  exists m r, execAt (c :: s) = Some (c :: m, r)
              /\ c :: m ++ r = c :: s /\ maximalRun (tokenClass c) (c :: m) r.
Proof.
  unfold execAt, tokenClass.
  destruct (inWordClass c) eqn:H1.
  { destruct (plus_head inWordClass c s H1) as (m & r & -> & ?); eauto. }
  rewrite (plus_fail inWordClass c s H1).
  destruct (inPunctClass c) eqn:H2.
  { destruct (plus_head inPunctClass c s H2) as (m & r & -> & ?); eauto. }
  rewrite (plus_fail inPunctClass c s H2).
  pose proof (tokenClass_self c) as H3. unfold tokenClass in H3.
  rewrite H1, H2 in H3.
  destruct (plus_head inSpaceClass c s H3) as (m & r & -> & ?); eauto.
Qed.

Lemma matchAll_concat (fuel : nat) (s : jsstring) :
  (length s <= fuel)%nat -> concat (matchAll fuel s) = s.
Proof.
  revert s. induction fuel as [|fuel IH]; intros s Hlen.
  - destruct s; [reflexivity | simpl in Hlen; lia].
  - destruct s as [|c s]; [reflexivity|].
    destruct (execAt_cons c s) as (m & r & Hex & Happ & _).
    cbn [matchAll]. rewrite Hex. cbn [concat].
    rewrite IH; [exact Happ|].
    injection Happ as Happ. apply (f_equal (@length N)) in Happ.
    rewrite length_app in Happ. simpl in Hlen. lia.
Qed.

(** C7. Tokenizer round trip: for every input string, the texts of the
    tokens that [prepareDisplay] cuts it into, concatenated in order, are the
    input string itself. *)
Theorem tokenize_round_trip (text : jsstring) :
  concat (tokenize text) = text
  /\ forall s, concat (words (prepareDisplay text s)) = text.
Proof.
  assert (concat (tokenize text) = text) as H
    by (apply matchAll_concat; reflexivity).
  split; [exact H|]. intros s. exact H.
Qed.

(** Case analysis on the comparisons that make up the character classes. *)
Ltac class_cases :=
  repeat match goal with
    | |- context [N.leb ?a ?b] => destruct (N.leb_spec a b); try lia
    | |- context [N.eqb ?a ?b] => destruct (N.eqb_spec a b); try lia
    end.

Lemma space_not_word (c : codeunit) : isSpace c = true -> inWordClass c = false.
Proof.
  unfold isSpace, inWordClass, isWordChar, isLower, isUpper, isDigit, between,
    underscore, apostrophe.
  class_cases; simpl; congruence.
Qed.

Lemma tokenClass_space (c : codeunit) : isSpace c = true -> tokenClass c = inSpaceClass.
Proof.
  intros Hc. unfold tokenClass. rewrite (space_not_word c Hc).
  unfold inPunctClass. rewrite Hc, andb_false_r. reflexivity.
Qed.

Lemma forallb_negb_existsb {A} (f : A -> bool) (l : list A) :
  forallb (fun x => negb (f x)) l = negb (existsb f l).
Proof.
  induction l as [|x l IH]; simpl; [reflexivity|].
  rewrite IH. by destruct (f x).
Qed.

(** How [prepareDisplay] renders a run of the class of its first code unit. *)
Lemma classify_run (c : codeunit) (t : jsstring) :
  forallb (tokenClass c) (c :: t) = true ->
  classify (c :: t)
  = if isSpace c then Whitespace
    else if existsb isWordChar (c :: t) then Word else Punctuation.
Proof.
  intros Hrun. unfold classify, isWhitespaceToken, isNonWordToken.
  destruct (isSpace c) eqn:Hc.
  - rewrite (tokenClass_space c Hc) in Hrun.
    change (forallb isSpace (c :: t) = true) in Hrun.
    cbv iota. by rewrite Hrun.
  - cbn [forallb]. rewrite Hc. cbn [andb].
    change (negb (isWordChar c) && forallb (fun d => negb (isWordChar d)) t)
      with (forallb (fun d => negb (isWordChar d)) (c :: t)).
    rewrite forallb_negb_existsb.
    by destruct (existsb isWordChar (c :: t)).
Qed.

Lemma matchAll_runs (fuel : nat) (s : jsstring) (pre post : list jsstring) (t : jsstring) :
  (length s <= fuel)%nat ->
  matchAll fuel s = pre ++ t :: post ->
  exists c t', t = c :: t'
    /\ maximalRun (tokenClass c) t (concat post)
    /\ concat pre ++ t ++ concat post = s.
Proof.
  revert s pre. induction fuel as [|fuel IH]; intros s pre Hlen Hm.
  - destruct pre; discriminate.
  - destruct s as [|c s]; [destruct pre; discriminate|].
    destruct (execAt_cons c s) as (m & r & Hex & Happ & Hmax).
    cbn [matchAll] in Hm. rewrite Hex in Hm.
    assert (length r <= fuel)%nat as Hr.
    { injection Happ as Happ. apply (f_equal (@length N)) in Happ.
      rewrite length_app in Happ. simpl in Hlen. lia. }
    destruct pre as [|t0 pre]; simpl in Hm; injection Hm as Ht Hpost.
    + subst t. exists c, m.
      rewrite <- Hpost, (matchAll_concat fuel r Hr).
      split; [reflexivity|]. split; [exact Hmax|]. exact Happ.
    + subst t0. destruct (IH r pre Hr Hpost) as (d & t' & -> & Hrun & Hcat).
      exists d, t'. split; [reflexivity|]. split; [exact Hrun|].
      cbn [concat]. rewrite <- app_assoc, Hcat. exact Happ.
Qed.

(** C6, as the specification words it, fails on a lone apostrophe: it is a
    run of word-characters, and the program renders it as punctuation.  It
    fails for the cut as well: in "!'a" the apostrophe goes with the
    exclamation mark before it and not with the letter after it. *)
Lemma tokens_apostrophe_not_spec :
  (tokens (js "'") = [(Punctuation, js "'")]
   /\ specTokens (js "'") = [(Word, js "'")]
   /\ tokens (js "'") <> specTokens (js "'"))
  /\ (tokens (js "!'a") = [(Punctuation, js "!'"); (Word, js "a")]
      /\ specTokens (js "!'a") = [(Punctuation, js "!"); (Word, js "'a")]
      /\ tokens (js "!'a") <> specTokens (js "!'a")).
Proof.
  split; (split; [reflexivity|]; split; [reflexivity|]; discriminate).
Qed.

(** C6 (amended). Tokenizer classification: for every input string the
    tokens are non-empty and, concatenated, give the input; each token is the
    longest run, from where the token before it ended, of code units of one
    class, which its first code unit [c] chooses: [[A-Za-z0-9_']] if [c] lies
    in it, else the code units that are neither [\w] nor whitespace (the
    apostrophe is one of them) if [c] is no whitespace, else whitespace.  A
    run of whitespace is rendered as Whitespace; any other token is rendered
    as Word if one of [[A-Za-z0-9_]] occurs in it and as Punctuation if none
    does, so a token made of apostrophes is Punctuation. *)
Theorem tokenize_greedy_runs (text : jsstring) (pre post : list jsstring) (t : jsstring) :
  tokenize text = pre ++ t :: post ->
  exists c t', t = c :: t'
    /\ maximalRun (tokenClass c) t (concat post)
    /\ concat pre ++ t ++ concat post = text
    /\ classify t
       = if isSpace c then Whitespace
         else if existsb isWordChar t then Word else Punctuation.
Proof.
  intros Hm.
  destruct (matchAll_runs (length text) text pre post t (le_n _) Hm)
    as (c & t' & -> & Hrun & Hcat).
  exists c, t'. split; [reflexivity|]. split; [exact Hrun|]. split; [exact Hcat|].
  apply classify_run, Hrun.
Qed.

Lemma tokenize_greedy_runs_witness :
  tokenize (js "!'a") = [] ++ js "!'" :: [js "a"]
  /\ exists c t', js "!'" = c :: t'
    /\ maximalRun (tokenClass c) (js "!'") (concat [js "a"])
    /\ concat [] ++ js "!'" ++ concat [js "a"] = js "!'a"
    /\ classify (js "!'")
       = if isSpace c then Whitespace
         else if existsb isWordChar (js "!'") then Word else Punctuation.
Proof.
  split; [reflexivity|].
  apply (tokenize_greedy_runs (js "!'a") [] [js "a"] (js "!'")).
  reflexivity.
Defined.

(** ** Highlight synchronizer *)

(** C1 (the program on the example of the specification). With the input
    "Hello world!" cut into "Hello", " ", "world", "!", the boundary
    notification for offset 6, the start of "world", sets the flag and calls
    [highlightWord] for no word: the active index stays 0, where
    [startHighlighting] put it, and is not 1.  The walk adds one for the blank
    after "Hello" and then the length of the whitespace token as well, so it
    takes "world" to span the offsets 7 to 11. *)
Theorem boundary_offset_6_unresolved :
  words playing = [js "Hello"; js " "; js "world"; js "!"]
  /\ currentWordIndex playing = 0
  /\ findSpokenWord 6 (words playing) 0 0 = None
  /\ currentWordIndex (handleWordBoundary 6 5 playing) = 0
  /\ boundaryFired (handleWordBoundary 6 5 playing) = true
  /\ currentWordIndex (handleWordBoundary 7 5 playing) = 1.
Proof. vm_compute. repeat split; reflexivity. Qed.

(** C3 (the program on a shadowing run). After the shadowing request for
    "Hello world!" the normal-speed utterance is being spoken, no ticker runs
    and no word is highlighted; a boundary notification that arrives in this
    phase highlights the word it names, here word 0.  The end of the
    utterance then queues the restart with its delay of 1000 ms, and only the
    restart starts the slow utterance, with the ticker and word 0
    highlighted. *)
Theorem shadowing_normal_phase_boundary_highlights :
  (currentUtterance shadowingRequested = Some (helloWorld, Rate10)
   /\ onEnd shadowingRequested = NormalPhaseEnd helloWorld
   /\ highlightTimer shadowingRequested = None
   /\ activeElements shadowingRequested = [])
  /\ (currentUtterance shadowingBoundary = Some (helloWorld, Rate10)
      /\ onEnd shadowingBoundary = NormalPhaseEnd helloWorld
      /\ currentWordIndex shadowingBoundary = 0
      /\ activeElements shadowingBoundary = [mkElement (js "Hello") true])
  /\ (currentUtterance shadowingPaused = None
      /\ timeouts shadowingPaused = [(1000, helloWorld)])
  /\ (currentUtterance shadowingRestarted = Some (helloWorld, Rate07)
      /\ onEnd shadowingRestarted = SlowPhaseEnd
      /\ highlightTimer shadowingRestarted = Some (mkTimer Rate07 1)
      /\ boundaryFired shadowingRestarted = false
      /\ currentWordIndex shadowingRestarted = 0).
Proof. vm_compute. repeat split; reflexivity. Qed.

(** *** What each function does to the variables of the session *)

Lemma highlightWord_fields (index : Z) (s : state) :
  boundaryFired (highlightWord index s) = boundaryFired s
  /\ isSingleWordMode (highlightWord index s) = isSingleWordMode s
  /\ highlightTimer (highlightWord index s) = highlightTimer s
  /\ currentWordIndex (highlightWord index s) = index
  /\ length (wordElements (highlightWord index s)) = length (wordElements s).
Proof.
  unfold highlightWord, inBounds.
  repeat match goal with |- context [if ?b then _ else _] => destruct b end;
    cbn; rewrite ?length_alter; auto.
Qed.

Lemma clearHighlights_fields (s : state) :
  boundaryFired (clearHighlights s) = boundaryFired s
  /\ isSingleWordMode (clearHighlights s) = isSingleWordMode s
  /\ highlightTimer (clearHighlights s) = highlightTimer s
  /\ currentWordIndex (clearHighlights s) = -1
  /\ length (wordElements (clearHighlights s)) = length (wordElements s).
Proof. unfold clearHighlights; cbn. rewrite length_map. auto. Qed.

Lemma stopHighlighting_fields (s : state) :
  boundaryFired (stopHighlighting s) = boundaryFired s
  /\ isSingleWordMode (stopHighlighting s) = isSingleWordMode s
  /\ highlightTimer (stopHighlighting s) = None
  /\ currentWordIndex (stopHighlighting s) = currentWordIndex s
  /\ wordElements (stopHighlighting s) = wordElements s.
Proof. unfold stopHighlighting. destruct (highlightTimer s) eqn:H; cbn; auto. Qed.

Lemma activeElements_clear (l : list element) :
  List.filter active (map (setActive false) l) = [].
Proof. induction l as [|e l IH]; [reflexivity | exact IH]. Qed.

Lemma renderWord_inactive (ws : list jsstring) (acc : list node * list element) :
  List.filter active acc.2 = [] ->
  List.filter active (fold_left renderWord ws acc).2 = [].
Proof.
  revert acc. induction ws as [|w ws IH]; intros acc Hacc; [exact Hacc|].
  cbn [fold_left]. apply IH. unfold renderWord.
  destruct (isWhitespaceToken w); [exact Hacc|].
  destruct (isNonWordToken w); [exact Hacc|].
  cbn. rewrite List.filter_app, Hacc. reflexivity.
Qed.

Lemma trimStart_blank (t : jsstring) : forallb isSpace t = true -> trimStart t = [].
Proof.
  induction t as [|c t IH]; [reflexivity|]. cbn.
  destruct (isSpace c); [exact IH | discriminate].
Qed.

Lemma getCurrentText_blank (textInput : jsstring) :
  forallb isSpace textInput = true -> getCurrentText textInput = [].
Proof.
  intros H. unfold getCurrentText, trim. by rewrite (trimStart_blank _ H).
Qed.

(** C9. Empty-input rejection: for every content of the input field that is
    empty or made of whitespace only, the play, slow and shadowing requests
    start no session: they set the status line and leave the tokens, the word
    elements, the active word index, the boundary flag, the ticker and the
    rest of the session state as they were. *)
Theorem blank_input_rejected (textInput : jsstring) (s : state) :
  forallb isSpace textInput = true ->
  (handlePlay textInput s = updateStatus "Please enter some text" s
   /\ sessionState (handlePlay textInput s) = sessionState s)
  /\ (handleSlow textInput s = updateStatus "Please enter some text" s
      /\ sessionState (handleSlow textInput s) = sessionState s)
  /\ (handleShadowing textInput s = updateStatus "Please enter some text" s
      /\ sessionState (handleShadowing textInput s) = sessionState s).
Proof.
  intros H. unfold handlePlay, handleSlow, handleShadowing.
  rewrite (getCurrentText_blank _ H). repeat split.
Qed.

Lemma blank_input_rejected_witness :
  forallb isSpace [32%N; 9%N; 10%N] = true
  /\ sessionState (handlePlay [32%N; 9%N; 10%N] playing) = sessionState playing
  /\ sessionState (handleSlow [32%N; 9%N; 10%N] playing) = sessionState playing
  /\ sessionState (handleShadowing [32%N; 9%N; 10%N] playing) = sessionState playing.
Proof.
  assert (forallb isSpace [32%N; 9%N; 10%N] = true) as H by reflexivity.
  split; [exact H|].
  destruct (blank_input_rejected [32%N; 9%N; 10%N] playing H)
    as ((_ & H1) & (_ & H2) & (_ & H3)).
  auto.
Defined.

Create Rewrite HintDb session.

(** What the collaborators and the plain assignments do to the variables of
    the synchronizer. *)
Lemma boundaryFired_updateStatus (message : string) (s : state) :
  boundaryFired (updateStatus message s) = boundaryFired s.
Proof. reflexivity. Qed.
Lemma boundaryFired_disableButtons (disabled : bool) (s : state) :
  boundaryFired (disableButtons disabled s) = boundaryFired s.
Proof. reflexivity. Qed.
Lemma boundaryFired_TTS_stop (s : state) :
  boundaryFired (TTS_stop s) = boundaryFired s.
Proof. reflexivity. Qed.
Lemma boundaryFired_TTS_speak (text : jsstring) (r : rate) (s : state) :
  boundaryFired (TTS_speak text r s) = boundaryFired s.
Proof. reflexivity. Qed.
Lemma boundaryFired_TTS_setOnEnd (callback : endCallback) (s : state) :
  boundaryFired (TTS_setOnEnd callback s) = boundaryFired s.
Proof. reflexivity. Qed.
Lemma boundaryFired_set_isShadowingMode (v : bool) (s : state) :
  boundaryFired (set_isShadowingMode v s) = boundaryFired s.
Proof. reflexivity. Qed.
Lemma boundaryFired_set_isSingleWordMode (v : bool) (s : state) :
  boundaryFired (set_isSingleWordMode v s) = boundaryFired s.
Proof. reflexivity. Qed.
Lemma boundaryFired_set_currentUtterance (v : option (jsstring * rate)) (s : state) :
  boundaryFired (set_currentUtterance v s) = boundaryFired s.
Proof. reflexivity. Qed.
Lemma boundaryFired_set_timeouts (v : list (Z * jsstring)) (s : state) :
  boundaryFired (set_timeouts v s) = boundaryFired s.
Proof. reflexivity. Qed.
Lemma boundaryFired_set_boundaryFired (v : bool) (s : state) :
  boundaryFired (set_boundaryFired v s) = v.
Proof. reflexivity. Qed.
Lemma boundaryFired_set_highlightTimer (v : option timer) (s : state) :
  boundaryFired (set_highlightTimer v s) = boundaryFired s.
Proof. reflexivity. Qed.
Lemma highlightTimer_updateStatus (message : string) (s : state) :
  highlightTimer (updateStatus message s) = highlightTimer s.
Proof. reflexivity. Qed.
Lemma highlightTimer_disableButtons (disabled : bool) (s : state) :
  highlightTimer (disableButtons disabled s) = highlightTimer s.
Proof. reflexivity. Qed.
Lemma highlightTimer_TTS_stop (s : state) :
  highlightTimer (TTS_stop s) = highlightTimer s.
Proof. reflexivity. Qed.
Lemma highlightTimer_TTS_speak (text : jsstring) (r : rate) (s : state) :
  highlightTimer (TTS_speak text r s) = highlightTimer s.
Proof. reflexivity. Qed.
Lemma highlightTimer_TTS_setOnEnd (callback : endCallback) (s : state) :
  highlightTimer (TTS_setOnEnd callback s) = highlightTimer s.
Proof. reflexivity. Qed.
Lemma highlightTimer_set_isShadowingMode (v : bool) (s : state) :
  highlightTimer (set_isShadowingMode v s) = highlightTimer s.
Proof. reflexivity. Qed.
Lemma highlightTimer_set_isSingleWordMode (v : bool) (s : state) :
  highlightTimer (set_isSingleWordMode v s) = highlightTimer s.
Proof. reflexivity. Qed.
Lemma highlightTimer_set_currentUtterance (v : option (jsstring * rate)) (s : state) :
  highlightTimer (set_currentUtterance v s) = highlightTimer s.
Proof. reflexivity. Qed.
Lemma highlightTimer_set_timeouts (v : list (Z * jsstring)) (s : state) :
  highlightTimer (set_timeouts v s) = highlightTimer s.
Proof. reflexivity. Qed.
Lemma highlightTimer_set_boundaryFired (v : bool) (s : state) :
  highlightTimer (set_boundaryFired v s) = highlightTimer s.
Proof. reflexivity. Qed.
Lemma highlightTimer_set_highlightTimer (v : option timer) (s : state) :
  highlightTimer (set_highlightTimer v s) = v.
Proof. reflexivity. Qed.
Lemma currentWordIndex_updateStatus (message : string) (s : state) :
  currentWordIndex (updateStatus message s) = currentWordIndex s.
Proof. reflexivity. Qed.
Lemma currentWordIndex_disableButtons (disabled : bool) (s : state) :
  currentWordIndex (disableButtons disabled s) = currentWordIndex s.
Proof. reflexivity. Qed.
Lemma currentWordIndex_TTS_stop (s : state) :
  currentWordIndex (TTS_stop s) = currentWordIndex s.
Proof. reflexivity. Qed.
Lemma currentWordIndex_TTS_speak (text : jsstring) (r : rate) (s : state) :
  currentWordIndex (TTS_speak text r s) = currentWordIndex s.
Proof. reflexivity. Qed.
Lemma currentWordIndex_TTS_setOnEnd (callback : endCallback) (s : state) :
  currentWordIndex (TTS_setOnEnd callback s) = currentWordIndex s.
Proof. reflexivity. Qed.
Lemma currentWordIndex_set_isShadowingMode (v : bool) (s : state) :
  currentWordIndex (set_isShadowingMode v s) = currentWordIndex s.
Proof. reflexivity. Qed.
Lemma currentWordIndex_set_isSingleWordMode (v : bool) (s : state) :
  currentWordIndex (set_isSingleWordMode v s) = currentWordIndex s.
Proof. reflexivity. Qed.
Lemma currentWordIndex_set_currentUtterance (v : option (jsstring * rate)) (s : state) :
  currentWordIndex (set_currentUtterance v s) = currentWordIndex s.
Proof. reflexivity. Qed.
Lemma currentWordIndex_set_timeouts (v : list (Z * jsstring)) (s : state) :
  currentWordIndex (set_timeouts v s) = currentWordIndex s.
Proof. reflexivity. Qed.
Lemma currentWordIndex_set_boundaryFired (v : bool) (s : state) :
  currentWordIndex (set_boundaryFired v s) = currentWordIndex s.
Proof. reflexivity. Qed.
Lemma currentWordIndex_set_highlightTimer (v : option timer) (s : state) :
  currentWordIndex (set_highlightTimer v s) = currentWordIndex s.
Proof. reflexivity. Qed.
Lemma wordElements_updateStatus (message : string) (s : state) :
  wordElements (updateStatus message s) = wordElements s.
Proof. reflexivity. Qed.
Lemma wordElements_disableButtons (disabled : bool) (s : state) :
  wordElements (disableButtons disabled s) = wordElements s.
Proof. reflexivity. Qed.
Lemma wordElements_TTS_stop (s : state) :
  wordElements (TTS_stop s) = wordElements s.
Proof. reflexivity. Qed.
Lemma wordElements_TTS_speak (text : jsstring) (r : rate) (s : state) :
  wordElements (TTS_speak text r s) = wordElements s.
Proof. reflexivity. Qed.
Lemma wordElements_TTS_setOnEnd (callback : endCallback) (s : state) :
  wordElements (TTS_setOnEnd callback s) = wordElements s.
Proof. reflexivity. Qed.
Lemma wordElements_set_isShadowingMode (v : bool) (s : state) :
  wordElements (set_isShadowingMode v s) = wordElements s.
Proof. reflexivity. Qed.
Lemma wordElements_set_isSingleWordMode (v : bool) (s : state) :
  wordElements (set_isSingleWordMode v s) = wordElements s.
Proof. reflexivity. Qed.
Lemma wordElements_set_currentUtterance (v : option (jsstring * rate)) (s : state) :
  wordElements (set_currentUtterance v s) = wordElements s.
Proof. reflexivity. Qed.
Lemma wordElements_set_timeouts (v : list (Z * jsstring)) (s : state) :
  wordElements (set_timeouts v s) = wordElements s.
Proof. reflexivity. Qed.
Lemma wordElements_set_boundaryFired (v : bool) (s : state) :
  wordElements (set_boundaryFired v s) = wordElements s.
Proof. reflexivity. Qed.
Lemma wordElements_set_highlightTimer (v : option timer) (s : state) :
  wordElements (set_highlightTimer v s) = wordElements s.
Proof. reflexivity. Qed.
Lemma words_updateStatus (message : string) (s : state) :
  words (updateStatus message s) = words s.
Proof. reflexivity. Qed.
Lemma words_disableButtons (disabled : bool) (s : state) :
  words (disableButtons disabled s) = words s.
Proof. reflexivity. Qed.
Lemma words_TTS_stop (s : state) :
  words (TTS_stop s) = words s.
Proof. reflexivity. Qed.
Lemma words_TTS_speak (text : jsstring) (r : rate) (s : state) :
  words (TTS_speak text r s) = words s.
Proof. reflexivity. Qed.
Lemma words_TTS_setOnEnd (callback : endCallback) (s : state) :
  words (TTS_setOnEnd callback s) = words s.
Proof. reflexivity. Qed.
Lemma words_set_isShadowingMode (v : bool) (s : state) :
  words (set_isShadowingMode v s) = words s.
Proof. reflexivity. Qed.
Lemma words_set_isSingleWordMode (v : bool) (s : state) :
  words (set_isSingleWordMode v s) = words s.
Proof. reflexivity. Qed.
Lemma words_set_currentUtterance (v : option (jsstring * rate)) (s : state) :
  words (set_currentUtterance v s) = words s.
Proof. reflexivity. Qed.
Lemma words_set_timeouts (v : list (Z * jsstring)) (s : state) :
  words (set_timeouts v s) = words s.
Proof. reflexivity. Qed.
Lemma words_set_boundaryFired (v : bool) (s : state) :
  words (set_boundaryFired v s) = words s.
Proof. reflexivity. Qed.
Lemma words_set_highlightTimer (v : option timer) (s : state) :
  words (set_highlightTimer v s) = words s.
Proof. reflexivity. Qed.

#[local] Hint Rewrite
  boundaryFired_updateStatus boundaryFired_disableButtons
  boundaryFired_TTS_stop boundaryFired_TTS_speak boundaryFired_TTS_setOnEnd
  boundaryFired_set_isShadowingMode boundaryFired_set_isSingleWordMode
  boundaryFired_set_currentUtterance boundaryFired_set_timeouts
  boundaryFired_set_boundaryFired boundaryFired_set_highlightTimer
  highlightTimer_updateStatus highlightTimer_disableButtons
  highlightTimer_TTS_stop highlightTimer_TTS_speak
  highlightTimer_TTS_setOnEnd highlightTimer_set_isShadowingMode
  highlightTimer_set_isSingleWordMode highlightTimer_set_currentUtterance
  highlightTimer_set_timeouts highlightTimer_set_boundaryFired
  highlightTimer_set_highlightTimer currentWordIndex_updateStatus
  currentWordIndex_disableButtons currentWordIndex_TTS_stop
  currentWordIndex_TTS_speak currentWordIndex_TTS_setOnEnd
  currentWordIndex_set_isShadowingMode currentWordIndex_set_isSingleWordMode
  currentWordIndex_set_currentUtterance currentWordIndex_set_timeouts
  currentWordIndex_set_boundaryFired currentWordIndex_set_highlightTimer
  wordElements_updateStatus wordElements_disableButtons wordElements_TTS_stop
  wordElements_TTS_speak wordElements_TTS_setOnEnd
  wordElements_set_isShadowingMode wordElements_set_isSingleWordMode
  wordElements_set_currentUtterance wordElements_set_timeouts
  wordElements_set_boundaryFired wordElements_set_highlightTimer
  words_updateStatus words_disableButtons words_TTS_stop words_TTS_speak
  words_TTS_setOnEnd words_set_isShadowingMode words_set_isSingleWordMode
  words_set_currentUtterance words_set_timeouts words_set_boundaryFired
  words_set_highlightTimer : session.

Lemma boundaryFired_highlightWord (index : Z) (s : state) :
  boundaryFired (highlightWord index s) = boundaryFired s.
Proof. apply highlightWord_fields. Qed.

Lemma boundaryFired_clearHighlights (s : state) :
  boundaryFired (clearHighlights s) = boundaryFired s.
Proof. apply clearHighlights_fields. Qed.

Lemma boundaryFired_stopHighlighting (s : state) :
  boundaryFired (stopHighlighting s) = boundaryFired s.
Proof. apply stopHighlighting_fields. Qed.

#[local] Hint Rewrite boundaryFired_highlightWord boundaryFired_clearHighlights
  boundaryFired_stopHighlighting : session.

(** A notification that is not for a single played word sets the flag. *)
Lemma handleWordBoundary_sets_flag (charIndex charLength : Z) (s : state) :
  isSingleWordMode s = false ->
  boundaryFired (handleWordBoundary charIndex charLength s) = true.
Proof.
  intros Hs. unfold handleWordBoundary. rewrite Hs.
  destruct (findSpokenWord _ _ _ _); autorewrite with session; reflexivity.
Qed.

(** Only the start of a playback takes the flag back. *)
Lemma step_keeps_flag (s : state) (e : event) :
  startsPlayback e = false -> boundaryFired s = true ->
  boundaryFired (step s e) = true.
Proof.
  intros He Hs. destruct e; try discriminate; cbn [step].
  - unfold handleStop. autorewrite with session. exact Hs.
  - unfold playWord. destruct word; [exact Hs|]. exact Hs.
  - unfold handleWordBoundary. destruct (isSingleWordMode s); [exact Hs|].
    destruct (findSpokenWord _ _ _ _); autorewrite with session; reflexivity.
  - unfold runOnEnd. change (onEnd (set_currentUtterance None s)) with (onEnd s).
    destruct (onEnd s).
    + unfold handleSpeechEnd.
      change (isSingleWordMode (set_currentUtterance None s))
        with (isSingleWordMode s).
      destruct (isSingleWordMode s); [exact Hs|].
      autorewrite with session. exact Hs.
    + unfold normalPhaseEnded.
      change (isShadowingMode (set_currentUtterance None s))
        with (isShadowingMode s).
      destruct (isShadowingMode s); autorewrite with session; exact Hs.
    + unfold handleShadowingComplete. autorewrite with session. exact Hs.
  - unfold timerTick. destruct (highlightTimer s); [|exact Hs]. by rewrite Hs.
Qed.

Lemma run_keeps_flag (es : list event) (s : state) :
  forallb (fun e => negb (startsPlayback e)) es = true ->
  boundaryFired s = true -> boundaryFired (run s es) = true.
Proof.
  revert s. induction es as [|e es IH]; intros s Hes Hs; [exact Hs|].
  cbn in Hes. apply andb_true_iff in Hes as [He Hes].
  apply negb_true_iff in He.
  apply (IH (step s e) Hes). by apply step_keeps_flag.
Qed.

Lemma timerTick_inert (s : state) : boundaryFired s = true -> timerTick s = s.
Proof.
  intros Hs. unfold timerTick. destruct (highlightTimer s); [|reflexivity].
  by rewrite Hs.
Qed.

(** The ticker on its own: tick [k] highlights word [k]. *)
Lemma ticks_advance (r : rate) (n k : nat) (s : state) :
  boundaryFired s = false -> length (wordElements s) = n ->
  highlightTimer s = Some (mkTimer r 1) -> currentWordIndex s = 0 ->
  (k < n)%nat ->
  let s' := Nat.iter k timerTick s in
  boundaryFired s' = false /\ length (wordElements s') = n
  /\ highlightTimer s' = Some (mkTimer r (S k))
  /\ currentWordIndex s' = Z.of_nat k.
Proof.
  intros Hf Hn Ht Hc. induction k as [|k IH]; intros Hk; [cbn; auto|].
  destruct IH as (Hf' & Hn' & Ht' & Hc'); [lia|].
  cbv zeta. change (Nat.iter (S k) timerTick s) with (timerTick (Nat.iter k timerTick s)).
  cbv zeta in Hf', Hn', Ht', Hc'.
  set (sk := Nat.iter k timerTick s) in *.
  unfold timerTick. rewrite Ht', Hf'. cbn [wordIndex timerRate].
  rewrite Hn'. destruct (Nat.ltb_spec (S k) n) as [_|]; [|lia].
  cbn. destruct (highlightWord_fields (Z.of_nat (S k)) sk) as (-> & _ & _ & -> & ->).
  auto.
Qed.

Lemma startHighlighting_begins (r : rate) (s : state) :
  wordElements s <> [] ->
  let s' := startHighlighting r s in
  boundaryFired s' = boundaryFired s
  /\ length (wordElements s') = length (wordElements s)
  /\ highlightTimer s' = Some (mkTimer r 1)
  /\ currentWordIndex s' = 0.
Proof.
  intros Hne. unfold startHighlighting. cbv zeta.
  destruct (stopHighlighting_fields s) as (Hb & _ & _ & _ & Hw).
  assert ((length (wordElements (stopHighlighting s)) =? 0)%nat = false) as ->.
  { rewrite Hw. by destruct (wordElements s). }
  cbn. destruct (highlightWord_fields 0 (stopHighlighting s)) as (-> & _ & _ & -> & ->).
  rewrite Hb, Hw. auto.
Qed.

Lemma startHighlighting_length (r : rate) (s : state) :
  length (wordElements (startHighlighting r s)) = length (wordElements s).
Proof.
  unfold startHighlighting. cbv zeta.
  destruct (stopHighlighting_fields s) as (_ & _ & _ & _ & Hw).
  destruct (length (wordElements (stopHighlighting s)) =? 0)%nat;
    autorewrite with session; [by rewrite Hw|].
  destruct (highlightWord_fields 0 (stopHighlighting s)) as (_ & _ & _ & _ & ->).
  by rewrite Hw.
Qed.

Lemma boundaryFired_prepareDisplay (text : jsstring) (s : state) :
  boundaryFired (prepareDisplay text s) = false.
Proof. reflexivity. Qed.

(** The ticker from the start of an utterance on. *)
Lemma ticks_after_start (text : jsstring) (r : rate) (p : state) (k : nat) :
  boundaryFired p = false ->
  (k < length (wordElements (TTS_speak text r (startHighlighting r p))))%nat ->
  boundaryFired (Nat.iter k timerTick (TTS_speak text r (startHighlighting r p))) = false
  /\ currentWordIndex (Nat.iter k timerTick (TTS_speak text r (startHighlighting r p)))
     = Z.of_nat k.
Proof.
  intros Hp Hk.
  assert (wordElements p <> []) as Hne.
  { intros Hnil. rewrite wordElements_TTS_speak, startHighlighting_length, Hnil in Hk.
    cbn in Hk. lia. }
  destruct (startHighlighting_begins r p Hne) as (Hb & _ & Ht & Hc).
  rewrite Hp in Hb.
  destruct (ticks_advance r
              (length (wordElements (TTS_speak text r (startHighlighting r p)))) k
              (TTS_speak text r (startHighlighting r p)))
    as (H1 & _ & _ & H2); autorewrite with session; auto.
Qed.

(** C2. Authority hand-off: once a boundary notification has been processed
    (the program is not playing a single word), the flag stays set through
    every event up to the next start of a playback, and every tick of the
    fallback timer in between leaves the whole state, and with it the active
    word index, as it is, while the interval stays registered.  Before any
    notification the ticker alone moves the index: from the start of the
    utterance by play, by slow or by the restart of a shadowing run, tick [k]
    makes [k] the active index, for every [k] below the number of words. *)
Theorem authority_hand_off :
  (forall (s : state) (charIndex charLength : Z) (es : list event),
      isSingleWordMode s = false ->
      forallb (fun e => negb (startsPlayback e)) es = true ->
      timerTick (run (handleWordBoundary charIndex charLength s) es)
      = run (handleWordBoundary charIndex charLength s) es
      /\ currentWordIndex
           (step (run (handleWordBoundary charIndex charLength s) es) IntervalElapsed)
         = currentWordIndex (run (handleWordBoundary charIndex charLength s) es)
      /\ highlightTimer
           (step (run (handleWordBoundary charIndex charLength s) es) IntervalElapsed)
         = highlightTimer (run (handleWordBoundary charIndex charLength s) es))
  /\ (forall (s : state) (textInput : jsstring) (k : nat),
        getCurrentText textInput <> [] ->
        ((k < length (wordElements (handlePlay textInput s)))%nat ->
         boundaryFired (Nat.iter k timerTick (handlePlay textInput s)) = false
         /\ currentWordIndex (Nat.iter k timerTick (handlePlay textInput s))
            = Z.of_nat k)
        /\ ((k < length (wordElements (handleSlow textInput s)))%nat ->
            boundaryFired (Nat.iter k timerTick (handleSlow textInput s)) = false
            /\ currentWordIndex (Nat.iter k timerTick (handleSlow textInput s))
               = Z.of_nat k))
  /\ (forall (s : state) (text : jsstring) (k : nat),
        isShadowingMode s = true ->
        (k < length (wordElements (restartElapsed text s)))%nat ->
        boundaryFired (Nat.iter k timerTick (restartElapsed text s)) = false
        /\ currentWordIndex (Nat.iter k timerTick (restartElapsed text s))
           = Z.of_nat k).
Proof.
  split; [|split].
  - intros s charIndex charLength es Hs Hes.
    assert (timerTick (run (handleWordBoundary charIndex charLength s) es)
            = run (handleWordBoundary charIndex charLength s) es) as Htick.
    { apply timerTick_inert, run_keeps_flag; [exact Hes|].
      by apply handleWordBoundary_sets_flag. }
    cbn [step]. rewrite Htick. auto.
  - intros s textInput k Hne. unfold handlePlay, handleSlow.
    destruct (getCurrentText textInput) as [|c t]; [done|].
    unfold TTS_speakNormal, TTS_speakSlow.
    split; apply ticks_after_start; autorewrite with session;
      apply boundaryFired_prepareDisplay.
  - intros s text k Hs. unfold restartElapsed. rewrite Hs. cbn [negb].
    unfold TTS_speakSlow. apply ticks_after_start.
    apply boundaryFired_set_boundaryFired.
Qed.

Lemma authority_hand_off_witness :
  (isSingleWordMode playing = false
   /\ timerTick (run (handleWordBoundary 0 5 playing)
                   [IntervalElapsed; WordBoundary 7 5; UtteranceEnd])
      = run (handleWordBoundary 0 5 playing)
          [IntervalElapsed; WordBoundary 7 5; UtteranceEnd])
  /\ (getCurrentText helloWorld <> []
      /\ (1 < length (wordElements (handlePlay helloWorld initial)))%nat
      /\ currentWordIndex (Nat.iter 1 timerTick (handlePlay helloWorld initial)) = 1)
  /\ (isShadowingMode shadowingPaused = true
      /\ (1 < length (wordElements (restartElapsed helloWorld shadowingPaused)))%nat
      /\ currentWordIndex
           (Nat.iter 1 timerTick (restartElapsed helloWorld shadowingPaused)) = 1).
Proof.
  destruct authority_hand_off as (Hafter & Hstart & Hrestart).
  split; [|split].
  - split; [reflexivity|].
    apply (Hafter playing 0 5 [IntervalElapsed; WordBoundary 7 5; UtteranceEnd]);
      reflexivity.
  - assert (getCurrentText helloWorld <> []) as Hne by (vm_compute; discriminate).
    assert (1 < length (wordElements (handlePlay helloWorld initial)))%nat as Hk
      by (vm_compute; lia).
    split; [exact Hne|]. split; [exact Hk|].
    apply (proj1 (Hstart initial helloWorld 1%nat Hne) Hk).
  - assert (isShadowingMode shadowingPaused = true) as Hs by reflexivity.
    assert (1 < length (wordElements (restartElapsed helloWorld shadowingPaused)))%nat
      as Hk by (vm_compute; lia).
    split; [exact Hs|]. split; [exact Hk|].
    apply (Hrestart shadowingPaused helloWorld 1%nat Hs Hk).
Defined.

(** *** Stop and the start of a playback *)

(** C5, as the specification words it, fails: stop after a processed
    boundary notification leaves the flag set, and the word elements of the
    stopped session stay. *)
Lemma stop_leaves_boundaryFired :
  boundaryFired stopped = true
  /\ length (wordElements stopped) = 2%nat
  /\ ~ sessionReset stopped.
Proof.
  split; [reflexivity|]. split; [reflexivity|].
  intros (_ & _ & H). vm_compute in H. discriminate.
Qed.

Lemma startHighlighting_timer (r : rate) (s : state) :
  highlightTimer (startHighlighting r s)
  = if (length (wordElements s) =? 0)%nat then None else Some (mkTimer r 1).
Proof.
  unfold startHighlighting. cbv zeta.
  destruct (stopHighlighting_fields s) as (_ & _ & Ht & _ & ->).
  destruct (length (wordElements s) =? 0)%nat; [exact Ht | reflexivity].
Qed.

Lemma boundaryFired_startHighlighting (r : rate) (s : state) :
  boundaryFired (startHighlighting r s) = boundaryFired s.
Proof.
  unfold startHighlighting. cbv zeta.
  destruct (length (wordElements (stopHighlighting s)) =? 0)%nat; cbn;
    autorewrite with session; reflexivity.
Qed.

(** C5 (amended). Session reset: stop sets the active word index to -1, takes
    the highlight from every word and halts the fallback ticker; it leaves
    [boundaryFired] and the word elements as they are.  The flag is reset by
    the next playback request: [prepareDisplay] sets the index to -1 and the
    flag to false over word elements without highlight, and play and slow
    then replace whatever ticker there was by a new one (none when the text
    has no word). *)
Theorem stop_and_restart_reset :
  (forall s : state,
      currentWordIndex (handleStop s) = -1
      /\ highlightTimer (handleStop s) = None
      /\ activeElements (handleStop s) = []
      /\ boundaryFired (handleStop s) = boundaryFired s
      /\ length (wordElements (handleStop s)) = length (wordElements s))
  /\ (forall (text : jsstring) (s : state),
        currentWordIndex (prepareDisplay text s) = -1
        /\ boundaryFired (prepareDisplay text s) = false
        /\ activeElements (prepareDisplay text s) = [])
  /\ (forall (textInput : jsstring) (s : state),
        getCurrentText textInput <> [] ->
        let ticker (r : rate) :=
          if (length (wordElements (prepareDisplay (getCurrentText textInput) s)) =? 0)%nat
          then None else Some (mkTimer r 1) in
        boundaryFired (handlePlay textInput s) = false
        /\ highlightTimer (handlePlay textInput s) = ticker Rate10
        /\ boundaryFired (handleSlow textInput s) = false
        /\ highlightTimer (handleSlow textInput s) = ticker Rate07).
Proof.
  split; [|split].
  - intros s. unfold activeElements, handleStop. autorewrite with session.
    set (s1 := set_isShadowingMode false (TTS_stop s)).
    destruct (stopHighlighting_fields s1) as (_ & _ & Ht & _ & Hw).
    destruct (clearHighlights_fields (stopHighlighting s1)) as (_ & _ & -> & -> & ->).
    rewrite Ht, Hw. repeat split.
    apply activeElements_clear.
  - intros text s. repeat split.
    unfold activeElements, prepareDisplay. cbn.
    by apply renderWord_inactive.
  - intros textInput s Hne ticker. subst ticker.
    unfold handlePlay, handleSlow. destruct (getCurrentText textInput) as [|c t]; [done|].
    unfold TTS_speakNormal, TTS_speakSlow. autorewrite with session.
    rewrite !startHighlighting_timer, !boundaryFired_startHighlighting.
    autorewrite with session. repeat split.
Qed.

Lemma stop_and_restart_reset_witness :
  getCurrentText (js " Hello world! ") <> []
  /\ boundaryFired
       (handlePlay (js " Hello world! ")
          (handleWordBoundary 0 5 (handlePlay (js "Hi") initial))) = false
  /\ highlightTimer
       (handleSlow (js " Hello world! ")
          (handleWordBoundary 0 5 (handlePlay (js "Hi") initial)))
     = Some (mkTimer Rate07 1).
Proof.
  assert (getCurrentText (js " Hello world! ") <> []) as Hne by (vm_compute; discriminate).
  split; [exact Hne|].
  destruct stop_and_restart_reset as (_ & _ & H).
  destruct (H (js " Hello world! ")
              (handleWordBoundary 0 5 (handlePlay (js "Hi") initial)) Hne)
    as (H1 & _ & _ & H4).
  split; [exact H1|]. exact H4.
Defined.

(** *** The highlight *)

Lemma no_active_filter (l : list element) :
  (forall (i : nat) (e : element), l !! i = Some e -> active e = false) ->
  List.filter active l = [].
Proof.
  induction l as [|e l IH]; intros H; [reflexivity|]. cbn.
  rewrite (H 0%nat e eq_refl). apply IH. intros i e' Hi. exact (H (S i) e' Hi).
Qed.

Lemma filter_active_lookup (l : list element) :
  List.filter active l = [] ->
  forall (i : nat) (e : element), l !! i = Some e -> active e = false.
Proof.
  induction l as [|e l IH]; intros H i e' Hi; [done|]. cbn in H.
  destruct (active e) eqn:He; [discriminate|].
  destruct i as [|i]; [by injection Hi as <- | exact (IH H i e' Hi)].
Qed.

(** If every highlighted element sits at the one position [k], at most one
    element is highlighted. *)
Lemma active_at_one_index (l : list element) (k : Z) :
  (forall (i : nat) (e : element),
      l !! i = Some e -> active e = true -> k = Z.of_nat i) ->
  (length (List.filter active l) <= 1)%nat.
Proof.
  revert k. induction l as [|e l IH]; intros k H; [cbn; lia|]. cbn.
  destruct (active e) eqn:He.
  - pose proof (H 0%nat e eq_refl He) as Hk.
    rewrite no_active_filter; [cbn; lia|].
    intros i e' Hi. destruct (active e') eqn:He'; [|reflexivity].
    pose proof (H (S i) e' Hi He'). lia.
  - apply (IH (k - 1)). intros i e' Hi He'.
    pose proof (H (S i) e' Hi He'). lia.
Qed.

Lemma highlightAtIndex_single (s : state) :
  highlightAtIndex s -> (length (activeElements s) <= 1)%nat.
Proof. intros H. exact (active_at_one_index _ _ H). Qed.

(** The first half of [highlightWord]: with the element at the old index
    cleared, no element is highlighted. *)
Lemma clear_previous (l : list element) (cur : Z) :
  (forall (i : nat) (e : element),
      l !! i = Some e -> active e = true -> cur = Z.of_nat i) ->
  let l' :=
    if (0 <=? cur) && (cur <? Z.of_nat (length l))
    then alter (setActive false) (Z.to_nat cur) l else l in
  forall (i : nat) (e : element), l' !! i = Some e -> active e = false.
Proof.
  intros H l' i e Hi. subst l'.
  destruct ((0 <=? cur) && (cur <? Z.of_nat (length l))) eqn:Hb.
  - destruct (decide (Z.to_nat cur = i)) as [<- | Hne].
    + rewrite list_lookup_alter_eq in Hi.
      apply fmap_Some in Hi as (e0 & _ & ->). reflexivity.
    + rewrite list_lookup_alter_ne in Hi by exact Hne.
      destruct (active e) eqn:He; [|reflexivity].
      pose proof (H i e Hi He). lia.
  - destruct (active e) eqn:He; [|reflexivity].
    pose proof (H i e Hi He) as Hc. apply lookup_lt_Some in Hi.
    apply andb_false_iff in Hb as [Hb | Hb]; lia.
Qed.

Lemma highlightWord_wordElements (index : Z) (s : state) :
  wordElements (highlightWord index s)
  = let cleared :=
      if inBounds (currentWordIndex s) s
      then alter (setActive false) (Z.to_nat (currentWordIndex s)) (wordElements s)
      else wordElements s in
    if (0 <=? index) && (index <? Z.of_nat (length cleared))
    then alter (setActive true) (Z.to_nat index) cleared
    else cleared.
Proof.
  unfold highlightWord, inBounds.
  destruct ((0 <=? currentWordIndex s)
            && (currentWordIndex s <? Z.of_nat (length (wordElements s))));
    cbn [wordElements currentWordIndex set_wordElements set_currentWordIndex];
    cbv zeta;
    match goal with |- context [if ?b then _ else _] => destruct b end;
    reflexivity.
Qed.

Lemma highlightWord_invariant (index : Z) (s : state) :
  highlightAtIndex s -> highlightAtIndex (highlightWord index s).
Proof.
  intros H i e Hi He.
  destruct (highlightWord_fields index s) as (_ & _ & _ & -> & _).
  rewrite highlightWord_wordElements in Hi.
  pose proof (clear_previous (wordElements s) (currentWordIndex s) H) as Hclear.
  cbv zeta in Hi, Hclear. fold (inBounds (currentWordIndex s) s) in Hclear.
  set (cleared :=
         if inBounds (currentWordIndex s) s
         then alter (setActive false) (Z.to_nat (currentWordIndex s)) (wordElements s)
         else wordElements s) in *.
  destruct ((0 <=? index) && (index <? Z.of_nat (length cleared))) eqn:Hb.
  - destruct (decide (Z.to_nat index = i)) as [<- | Hne]; [lia|].
    rewrite list_lookup_alter_ne in Hi by exact Hne.
    rewrite (Hclear i e Hi) in He. discriminate.
  - rewrite (Hclear i e Hi) in He. discriminate.
Qed.

Lemma highlightWord_in_bounds (index : Z) (s : state) :
  inBounds index s = true -> highlightAtIndex s ->
  indexNamesHighlight (highlightWord index s).
Proof.
  intros Hb H. right.
  destruct (highlightWord_fields index s) as (_ & _ & _ & -> & ->).
  unfold inBounds in Hb. split; [lia|].
  rewrite highlightWord_wordElements. cbv zeta.
  set (cleared :=
         if inBounds (currentWordIndex s) s
         then alter (setActive false) (Z.to_nat (currentWordIndex s)) (wordElements s)
         else wordElements s).
  assert (length cleared = length (wordElements s)) as Hlen.
  { subst cleared. destruct (inBounds _ _); [apply length_alter | reflexivity]. }
  rewrite Hlen, Hb. rewrite list_lookup_alter_eq.
  destruct (lookup_lt_is_Some_2 cleared (Z.to_nat index)) as [e ->]; [lia|].
  reflexivity.
Qed.

Lemma clearHighlights_invariant (s : state) :
  highlightAtIndex (clearHighlights s) /\ indexNamesHighlight (clearHighlights s).
Proof.
  assert (activeElements (clearHighlights s) = []) as Hnone
    by apply activeElements_clear.
  split.
  - intros i e Hi He. rewrite (filter_active_lookup _ Hnone i e Hi) in He. discriminate.
  - left. split; [reflexivity | exact Hnone].
Qed.

Lemma applyOp_length (s : state) (op : highlightOp) :
  length (wordElements (applyOp s op)) = length (wordElements s).
Proof.
  destruct op; [apply highlightWord_fields | apply clearHighlights_fields].
Qed.

Lemma applyOp_invariant (s : state) (op : highlightOp) :
  highlightAtIndex s -> highlightAtIndex (applyOp s op).
Proof.
  destruct op; [apply highlightWord_invariant | intros _; apply clearHighlights_invariant].
Qed.

Lemma applyOp_in_bounds (s : state) (op : highlightOp) :
  opInBounds s op -> highlightAtIndex s ->
  indexNamesHighlight (applyOp s op).
Proof.
  destruct op; [apply highlightWord_in_bounds | intros _ _; apply clearHighlights_invariant].
Qed.

Lemma opInBounds_length (s s' : state) (op : highlightOp) :
  length (wordElements s') = length (wordElements s) ->
  opInBounds s op -> opInBounds s' op.
Proof.
  intros Hlen. destruct op; [|done]. unfold opInBounds, inBounds. by rewrite Hlen.
Qed.

Lemma ops_invariant (ops : list highlightOp) (s : state) :
  highlightAtIndex s ->
  highlightAtIndex (fold_left applyOp ops s)
  /\ (indexNamesHighlight s -> Forall (opInBounds s) ops ->
      indexNamesHighlight (fold_left applyOp ops s)).
Proof.
  revert s. induction ops as [|op ops IH]; intros s H; [by split|].
  cbn [fold_left].
  destruct (IH (applyOp s op) (applyOp_invariant s op H)) as [IH1 IH2].
  split; [exact IH1|]. intros _ Hops.
  apply Forall_cons in Hops as [Hop Hops].
  apply IH2; [by apply applyOp_in_bounds|].
  eapply Forall_impl; [exact Hops|]. intros op'.
  apply opInBounds_length, applyOp_length.
Qed.

(** *** The display in the states the program reaches *)

Lemma words_highlightWord (index : Z) (s : state) :
  words (highlightWord index s) = words s.
Proof.
  unfold highlightWord.
  destruct (inBounds (currentWordIndex s) s); cbv zeta;
    match goal with |- context [if ?b then _ else _] => destruct b end;
    reflexivity.
Qed.

Lemma words_clearHighlights (s : state) : words (clearHighlights s) = words s.
Proof. reflexivity. Qed.

Lemma words_stopHighlighting (s : state) : words (stopHighlighting s) = words s.
Proof. unfold stopHighlighting. by destruct (highlightTimer s). Qed.

Lemma wordElements_stopHighlighting (s : state) :
  wordElements (stopHighlighting s) = wordElements s.
Proof. apply stopHighlighting_fields. Qed.

Lemma currentWordIndex_stopHighlighting (s : state) :
  currentWordIndex (stopHighlighting s) = currentWordIndex s.
Proof. apply stopHighlighting_fields. Qed.

#[local] Hint Rewrite words_highlightWord words_clearHighlights
  words_stopHighlighting wordElements_stopHighlighting
  currentWordIndex_stopHighlighting : session.

(** The invariant reads the word elements, the index and the tokens only. *)
Lemma displayInvariant_ext (s s' : state) :
  wordElements s' = wordElements s ->
  currentWordIndex s' = currentWordIndex s ->
  words s' = words s ->
  displayInvariant s -> displayInvariant s'.
Proof.
  unfold displayInvariant, highlightAtIndex, indexNamesHighlight, activeElements.
  intros -> -> ->. exact id.
Qed.

Ltac same_display :=
  eapply displayInvariant_ext; [| | |eassumption];
  autorewrite with session; reflexivity.

Lemma highlightWord_display (index : Z) (s : state) :
  inBounds index s = true ->
  displayInvariant s -> displayInvariant (highlightWord index s).
Proof.
  intros Hb (H1 & _ & H3). split; [|split].
  - by apply highlightWord_invariant.
  - by apply highlightWord_in_bounds.
  - destruct (highlightWord_fields index s) as (_ & _ & _ & _ & ->).
    by rewrite words_highlightWord.
Qed.

Lemma clearHighlights_display (s : state) :
  displayInvariant s -> displayInvariant (clearHighlights s).
Proof.
  intros (_ & _ & H3). destruct (clearHighlights_invariant s) as [H1 H2].
  split; [exact H1|]. split; [exact H2|].
  destruct (clearHighlights_fields s) as (_ & _ & _ & _ & ->). exact H3.
Qed.

Lemma startHighlighting_display (r : rate) (s : state) :
  displayInvariant s -> displayInvariant (startHighlighting r s).
Proof.
  intros H. unfold startHighlighting. cbv zeta.
  assert (displayInvariant (stopHighlighting s)) as Hstop by same_display.
  destruct (Nat.eqb_spec (length (wordElements (stopHighlighting s))) 0) as [|Hne];
    [exact Hstop|].
  assert (displayInvariant (highlightWord 0 (stopHighlighting s))) as Hhl.
  { apply highlightWord_display; [|exact Hstop]. unfold inBounds.
    apply andb_true_iff. split; [reflexivity|]. apply Z.ltb_lt. lia. }
  same_display.
Qed.

Lemma renderWord_length (ws : list jsstring) (acc : list node * list element) :
  length (fold_left renderWord ws acc).2
  = (length acc.2 + length (List.filter isWordToken ws))%nat.
Proof.
  revert acc. induction ws as [|w ws IH]; intros acc; [cbn; lia|].
  cbn [fold_left List.filter]. rewrite IH. unfold renderWord, isWordToken.
  destruct (isWhitespaceToken w); [cbn; lia|].
  destruct (isNonWordToken w); [cbn; lia|].
  cbn. rewrite length_app. cbn. lia.
Qed.

Lemma prepareDisplay_no_highlight (text : jsstring) (s : state) :
  highlightAtIndex (prepareDisplay text s)
  /\ indexNamesHighlight (prepareDisplay text s).
Proof.
  assert (activeElements (prepareDisplay text s) = []) as Hnone
    by (by apply renderWord_inactive).
  split.
  - intros i e Hi He. rewrite (filter_active_lookup _ Hnone i e Hi) in He. discriminate.
  - left. split; [reflexivity | exact Hnone].
Qed.

Lemma prepareDisplay_display (text : jsstring) (s : state) :
  displayInvariant (prepareDisplay text s).
Proof.
  destruct (prepareDisplay_no_highlight text s) as [H1 H2].
  split; [exact H1|]. split; [exact H2|].
  change (length (fold_left renderWord (tokenize text) ([], [])).2
          = length (List.filter isWordToken (tokenize text))).
  by rewrite renderWord_length.
Qed.

(** The index that the walk of [handleWordBoundary] reaches counts word
    tokens, so it stays below their number. *)
Lemma findSpokenWord_bound (charIndex : Z) (ws : list jsstring)
    (charCount wordIdx found : Z) :
  findSpokenWord charIndex ws charCount wordIdx = Some found ->
  wordIdx <= found < wordIdx + Z.of_nat (length (List.filter isWordToken ws)).
Proof.
  revert charCount wordIdx.
  induction ws as [|w ws IH]; intros charCount wordIdx H; [discriminate|].
  cbn [findSpokenWord List.filter] in *. unfold isWordToken at 1.
  destruct (isWhitespaceToken w || isNonWordToken w); cbn [negb].
  - exact (IH _ _ H).
  - cbn [length].
    destruct ((charCount <=? charIndex)
              && (charIndex <? charCount + Z.of_nat (length w))).
    + injection H as <-. lia.
    + apply IH in H. lia.
Qed.

Lemma handleWordBoundary_display (charIndex charLength : Z) (s : state) :
  displayInvariant s -> displayInvariant (handleWordBoundary charIndex charLength s).
Proof.
  intros H. unfold handleWordBoundary.
  destruct (isSingleWordMode s); [exact H|]. cbv zeta.
  assert (displayInvariant (set_boundaryFired true s)) as Hflag by same_display.
  rewrite words_set_boundaryFired.
  destruct (findSpokenWord charIndex (words s) 0 0) as [found|] eqn:Hfound;
    [|exact Hflag].
  apply highlightWord_display; [|exact Hflag].
  apply findSpokenWord_bound in Hfound. destruct H as (_ & _ & Hlen).
  unfold inBounds. rewrite wordElements_set_boundaryFired, Hlen.
  apply andb_true_iff. split; [apply Z.leb_le | apply Z.ltb_lt]; lia.
Qed.

Lemma timerTick_display (s : state) :
  displayInvariant s -> displayInvariant (timerTick s).
Proof.
  intros H. unfold timerTick.
  destruct (highlightTimer s) as [tm|]; [|exact H].
  destruct (boundaryFired s); [exact H|].
  destruct (Nat.ltb_spec (wordIndex tm) (length (wordElements s))) as [Hlt|];
    [|same_display].
  assert (displayInvariant (highlightWord (Z.of_nat (wordIndex tm)) s)) as Hhl.
  { apply highlightWord_display; [|exact H]. unfold inBounds.
    apply andb_true_iff. split; [apply Z.leb_le | apply Z.ltb_lt]; lia. }
  same_display.
Qed.

Lemma playback_display (text : jsstring) (r : rate) (message : string) (s : state) :
  displayInvariant
    (TTS_speak text r
       (startHighlighting r
          (updateStatus message (disableButtons true (prepareDisplay text s))))).
Proof.
  assert (displayInvariant
            (updateStatus message (disableButtons true (prepareDisplay text s))))
    as H0.
  { pose proof (prepareDisplay_display text s). same_display. }
  pose proof (startHighlighting_display r _ H0). same_display.
Qed.

Lemma step_display (s : state) (e : event) :
  displayInvariant s -> displayInvariant (step s e).
Proof.
  intros H. destruct e; cbn [step].
  - unfold handlePlay. destruct (getCurrentText textInput); [same_display|].
    apply playback_display.
  - unfold handleSlow. destruct (getCurrentText textInput); [same_display|].
    apply playback_display.
  - unfold handleShadowing. destruct (getCurrentText textInput) as [|c t];
      [same_display|].
    pose proof (prepareDisplay_display (c :: t) s).
    unfold startShadowingMode, TTS_speakNormal. same_display.
  - unfold handleStop.
    assert (displayInvariant (stopHighlighting (set_isShadowingMode false (TTS_stop s))))
      as H0 by same_display.
    apply clearHighlights_display in H0. same_display.
  - unfold playWord. destruct word; [exact H|]. unfold TTS_speakNormal. same_display.
  - by apply handleWordBoundary_display.
  - assert (displayInvariant (set_currentUtterance None s)) as H0 by same_display.
    revert H0. generalize (set_currentUtterance None s). clear s H. intros s H.
    unfold runOnEnd. destruct (onEnd s).
    + unfold handleSpeechEnd. destruct (isSingleWordMode s); [same_display|].
      assert (displayInvariant (stopHighlighting s)) as H0 by same_display.
      apply clearHighlights_display in H0. same_display.
    + unfold normalPhaseEnded. destruct (isShadowingMode s); [same_display | exact H].
    + unfold handleShadowingComplete.
      assert (displayInvariant (stopHighlighting (set_isShadowingMode false s)))
        as H0 by same_display.
      apply clearHighlights_display in H0. same_display.
  - by apply timerTick_display.
  - destruct (timeouts s) as [|[delay text] pending]; [exact H|].
    assert (displayInvariant (set_timeouts pending s)) as H0 by same_display.
    revert H0. generalize (set_timeouts pending s). clear s H. intros s H.
    unfold restartElapsed. destruct (isShadowingMode s); [|exact H]. cbn [negb].
    assert (displayInvariant
              (set_boundaryFired false
                 (TTS_setOnEnd SlowPhaseEnd
                    (updateStatus "Shadowing: Follow along!" s)))) as H0
      by same_display.
    apply (startHighlighting_display Rate07) in H0.
    unfold TTS_speakSlow. same_display.
Qed.

Lemma run_display (es : list event) (s : state) :
  displayInvariant s -> displayInvariant (run s es).
Proof.
  revert s. induction es as [|e es IH]; intros s H; [exact H|].
  apply (IH (step s e)). by apply step_display.
Qed.

Lemma initial_display : displayInvariant initial.
Proof.
  split; [|split]; [|by left|reflexivity].
  intros i e Hi. by destruct i.
Qed.

(** C10. Single active highlight: in every state the program reaches from
    its initial state, whatever the events, at most one word element carries
    the highlight, and the current word index is -1 with no highlight or in
    bounds and names the highlighted element.  The same holds after any
    sequence of [highlightWord] and [clearHighlights] whose indices are in
    bounds, as those of every call in the program are, from a state in which
    it holds.  [highlightWord] takes the highlight from the element it was on
    before it sets the new one: it records the index it is given, and any
    element highlighted afterwards is the one at that index. *)
Theorem highlight_ops_single_active :
  (forall (s : state) (ops : list highlightOp),
      highlightAtIndex s ->
      highlightAtIndex (fold_left applyOp ops s)
      /\ (length (activeElements (fold_left applyOp ops s)) <= 1)%nat
      /\ (forall index : Z,
            currentWordIndex (highlightWord index (fold_left applyOp ops s)) = index
            /\ highlightAtIndex (highlightWord index (fold_left applyOp ops s)))
      /\ (indexNamesHighlight s -> Forall (opInBounds s) ops ->
          singleActiveHighlight (fold_left applyOp ops s)))
  /\ (forall es : list event, singleActiveHighlight (run initial es)).
Proof.
  split.
  - intros s ops H. destruct (ops_invariant ops s H) as [H1 H2].
    split; [exact H1|]. split; [by apply highlightAtIndex_single|]. split.
    + intros index.
      split; [apply highlightWord_fields | by apply highlightWord_invariant].
    + intros Hs Hops. split; [by apply highlightAtIndex_single | by apply H2].
  - intros es. destruct (run_display es initial initial_display) as (H1 & H2 & _).
    split; [by apply highlightAtIndex_single | exact H2].
Qed.

Lemma highlight_ops_single_active_witness :
  highlightAtIndex (prepareDisplay (js "a b") initial)
  /\ indexNamesHighlight (prepareDisplay (js "a b") initial)
  /\ Forall (opInBounds (prepareDisplay (js "a b") initial))
       [HighlightWord 0; HighlightWord 1; ClearHighlights; HighlightWord 1]
  /\ singleActiveHighlight
       (fold_left applyOp
          [HighlightWord 0; HighlightWord 1; ClearHighlights; HighlightWord 1]
          (prepareDisplay (js "a b") initial)).
Proof.
  destruct (prepareDisplay_no_highlight (js "a b") initial) as [H1 H2].
  assert (Forall (opInBounds (prepareDisplay (js "a b") initial))
            [HighlightWord 0; HighlightWord 1; ClearHighlights; HighlightWord 1])
    as H3 by (repeat constructor).
  split; [exact H1|]. split; [exact H2|]. split; [exact H3|].
  apply (proj1 highlight_ops_single_active (prepareDisplay (js "a b") initial)
           [HighlightWord 0; HighlightWord 1; ClearHighlights; HighlightWord 1] H1);
    assumption.
Defined.

(** ** Dictionary *)

Lemma find_app {A} (p : A -> bool) (l1 l2 : list A) :
  List.find p (l1 ++ l2)
  = match List.find p l1 with Some x => Some x | None => List.find p l2 end.
Proof.
  induction l1 as [|x l1 IH]; [reflexivity|]. cbn. by destruct (p x).
Qed.

(** The loop of [getBaseForm] returns the first candidate, in the order of
    the suffixes and of the three repairs, that the store answers for. *)
Lemma getBaseFormFrom_first (wordData : gmap jsstring Dictionary.entry)
    (w : jsstring) (todo : list (jsstring * nat)) :
  Dictionary.getBaseFormFrom wordData w todo
  = List.find (Dictionary.truthy wordData) (flat_map (specCandidatesFor w) todo).
Proof.
  induction todo as [|[sfx minLength] todo IH]; [reflexivity|].
  cbn [Dictionary.getBaseFormFrom flat_map]. rewrite find_app, <- IH.
  unfold specCandidatesFor.
  destruct ((minLength <=? length w)%nat && Dictionary.endsWith w sfx);
    [|reflexivity].
  cbv zeta. set (base := Dictionary.sliceEnd w (length sfx)).
  cbn [app List.find].
  destruct (Dictionary.truthy wordData base); [reflexivity|].
  destruct (Dictionary.doubled base); cbn [andb app List.find].
  - destruct (Dictionary.truthy wordData (Dictionary.sliceEnd base 1)); [reflexivity|].
    by destruct (Dictionary.truthy wordData (base ++ js "e")).
  - by destruct (Dictionary.truthy wordData (base ++ js "e")).
Qed.


Lemma lowerCase_lower (c : codeunit) : isLower c = true -> Dictionary.lowerCase c = [c].
Proof.
  unfold Dictionary.lowerCase, isLower, isUpper, between.
  class_cases; simpl; congruence.
Qed.

Lemma toLowerCase_lower (w : jsstring) :
  forallb isLower w = true -> Dictionary.toLowerCase w = w.
Proof.
  induction w as [|c w IH]; [reflexivity|]. cbn [forallb].
  intros [Hc Hw]%andb_true_iff. unfold Dictionary.toLowerCase in *.
  cbn [flat_map]. rewrite (lowerCase_lower c Hc), (IH Hw). reflexivity.
Qed.

Lemma filter_forallb {A} (p : A -> bool) (l : list A) :
  forallb p (List.filter p l) = true.
Proof.
  induction l as [|x l IH]; [reflexivity|]. cbn.
  destruct (p x) eqn:Hx; [|exact IH]. cbn. by rewrite Hx.
Qed.

Lemma filter_all {A} (p : A -> bool) (l : list A) :
  forallb p l = true -> List.filter p l = l.
Proof.
  induction l as [|x l IH]; [reflexivity|]. cbn.
  intros [Hx Hl]%andb_true_iff. by rewrite Hx, (IH Hl).
Qed.

(** Normalising twice is normalising once. *)
Lemma normalize_idempotent (w : jsstring) :
  Dictionary.normalize (Dictionary.normalize w) = Dictionary.normalize w.
Proof.
  unfold Dictionary.normalize at 1.
  assert (forallb isLower (Dictionary.normalize w) = true) as H
    by apply filter_forallb.
  rewrite (toLowerCase_lower _ H). by apply filter_all.
Qed.

(** C8, as it is worded, fails for a store with a record under the empty
    key: "!" normalises to the empty string and is looked up under it, while
    the empty string itself is turned away before any lookup. *)
Lemma lookup_empty_key_differs :
  Dictionary.normalize (js "!") = []
  /\ Dictionary.lookup {[ [] := Dictionary.mkEntry None None None [] ]} (js "!")
     = Some (Dictionary.mkWordInfo [] None (Some (Dictionary.mkEntry None None None [])))
  /\ Dictionary.lookup {[ [] := Dictionary.mkEntry None None None [] ]}
       (Dictionary.normalize (js "!")) = None
  /\ Dictionary.lookup {[ [] := Dictionary.mkEntry None None None [] ]} (js "!")
     <> Dictionary.lookup {[ [] := Dictionary.mkEntry None None None [] ]}
          (Dictionary.normalize (js "!")).
Proof. repeat split; try (vm_compute; reflexivity). vm_compute. discriminate. Qed.

(** What [lookup] does with a surface form is what it does with the
    normal form, up to the test for the empty string that comes first. *)
Lemma lookup_of_normalize (wordData : gmap jsstring Dictionary.entry) (w : jsstring) :
  (w = [] \/ Dictionary.normalize w <> [] \/ wordData !! [] = None ->
   Dictionary.lookup wordData w = Dictionary.lookup wordData (Dictionary.normalize w))
  /\ (forall e : Dictionary.entry,
        w <> [] -> Dictionary.normalize w = [] -> wordData !! [] = Some e ->
        Dictionary.lookup wordData w = Some (Dictionary.mkWordInfo [] None (Some e))
        /\ Dictionary.lookup wordData (Dictionary.normalize w) = None).
Proof.
  destruct w as [|c t]; [split; [reflexivity | intros e H; done]|].
  pose proof (normalize_idempotent (c :: t)) as Hid.
  cbn [Dictionary.lookup].
  destruct (Dictionary.normalize (c :: t)) as [|n ns].
  - assert (Dictionary.getBaseForm wordData [] = None) as -> by reflexivity.
    unfold Dictionary.get.
    assert (bool_decide ([] ∈ Dictionary.objectPrototype) = false) as ->
      by (vm_compute; reflexivity).
    split.
    + intros [H | [H | H]]; [discriminate | done | by rewrite H].
    + intros e _ _ ->. split; reflexivity.
  - split; [|intros e _ H; discriminate].
    intros _. cbn [Dictionary.lookup]. rewrite Hid. reflexivity.
Qed.

(** C8 (amended). Lookup normalization: for every store and every surface
    form [w], [lookup(w)] equals [lookup(normalize(w))] unless [w] is not
    empty, normalises to the empty string and the store has a record under
    the empty key; in that case [lookup(w)] is that record and
    [lookup(normalize(w))] is null.  Apart from that case two surface forms
    with the same normal form, such as variants in casing and punctuation,
    have the same result. *)
Theorem lookup_normalize (wordData : gmap jsstring Dictionary.entry) (w : jsstring) :
  (w = [] \/ Dictionary.normalize w <> [] \/ wordData !! [] = None ->
   Dictionary.lookup wordData w = Dictionary.lookup wordData (Dictionary.normalize w))
  /\ (forall e : Dictionary.entry,
        w <> [] -> Dictionary.normalize w = [] -> wordData !! [] = Some e ->
        Dictionary.lookup wordData w = Some (Dictionary.mkWordInfo [] None (Some e))
        /\ Dictionary.lookup wordData (Dictionary.normalize w) = None)
  /\ (forall w' : jsstring,
        Dictionary.normalize w' = Dictionary.normalize w ->
        Dictionary.normalize w <> [] \/ wordData !! [] = None ->
        Dictionary.lookup wordData w' = Dictionary.lookup wordData w).
Proof.
  destruct (lookup_of_normalize wordData w) as [H1 H2].
  split; [exact H1|]. split; [exact H2|].
  intros w' Hw' H.
  rewrite H1 by (right; exact H).
  rewrite (proj1 (lookup_of_normalize wordData w')) by (right; by rewrite Hw').
  by rewrite Hw'.
Qed.

Lemma lookup_normalize_witness :
  (js "Practicing!" = [] \/ Dictionary.normalize (js "Practicing!") <> []
   \/ ({[ js "practice" := Dictionary.mkEntry None None None [] ]}
         : gmap jsstring Dictionary.entry) !! [] = None)
  /\ Dictionary.lookup {[ js "practice" := Dictionary.mkEntry None None None [] ]}
       (js "Practicing!")
     = Dictionary.lookup {[ js "practice" := Dictionary.mkEntry None None None [] ]}
         (Dictionary.normalize (js "Practicing!")).
Proof.
  assert (js "Practicing!" = [] \/ Dictionary.normalize (js "Practicing!") <> []
          \/ ({[ js "practice" := Dictionary.mkEntry None None None [] ]}
                : gmap jsstring Dictionary.entry) !! [] = None) as H
    by (right; left; vm_compute; discriminate).
  split; [exact H|].
  exact (proj1 (lookup_normalize
                  {[ js "practice" := Dictionary.mkEntry None None None [] ]}
                  (js "Practicing!")) H).
Defined.

(** * Further properties *)
(** ** Dictionary: what a lookup can return *)

Lemma normalize_lower (w : jsstring) : forallb isLower (Dictionary.normalize w) = true.
Proof. apply filter_forallb. Qed.

Lemma forallb_take {A} (p : A -> bool) (n : nat) (l : list A) :
  forallb p l = true -> forallb p (take n l) = true.
Proof.
  revert n. induction l as [|x l IH]; intros [|n] H; try reflexivity.
  cbn in *. apply andb_true_iff in H as [-> H]. by apply IH.
Qed.

(** A word that ends with a suffix is its base followed by the suffix. *)
Lemma endsWith_split (w sfx : jsstring) :
  sfx <> [] -> Dictionary.endsWith w sfx = true ->
  w = Dictionary.sliceEnd w (length sfx) ++ sfx
  /\ (length (Dictionary.sliceEnd w (length sfx)) + length sfx = length w)%nat.
Proof.
  intros Hne [Hlen Hdrop%bool_decide_eq_true]%andb_true_iff.
  apply Nat.leb_le in Hlen.
  unfold Dictionary.sliceEnd. destruct sfx as [|c sfx]; [done|].
  cbn [length] in *. split.
  - rewrite <- Hdrop. symmetry. apply take_drop.
  - rewrite length_take. lia.
Qed.

(** What every row of the suffix table has: a suffix that is not empty, not
    "e", and shorter than the least length asked of the word. *)
Lemma suffixes_shape :
  Forall (fun row : jsstring * nat =>
            (1 <= length row.1 < row.2)%nat /\ row.1 <> js "e")
    Dictionary.suffixes.
Proof. repeat constructor; cbn; try lia; discriminate. Qed.

Lemma suffixes_minLength :
  Forall (fun row : jsstring * nat => (3 <= row.2)%nat) Dictionary.suffixes.
Proof. repeat constructor; cbn; lia. Qed.

Lemma candidate_shape (w c : jsstring) (row : jsstring * nat) :
  (1 <= length row.1 < row.2)%nat -> row.1 <> js "e" ->
  In c (specCandidatesFor w row) ->
  c <> [] /\ (length c <= length w)%nat /\ c <> w
  /\ (forallb isLower w = true -> forallb isLower c = true).
Proof.
  destruct row as [sfx minLength]. cbn [fst snd]. intros Hlen He Hc.
  unfold specCandidatesFor in Hc.
  destruct (Nat.leb_spec minLength (length w)) as [Hmin|]; [|destruct Hc].
  destruct (Dictionary.endsWith w sfx) eqn:Hends; [|destruct Hc].
  cbn [andb] in Hc. cbv zeta in Hc.
  assert (sfx <> []) as Hsfx by (destruct sfx; [cbn in Hlen; lia | discriminate]).
  destruct (endsWith_split w sfx Hsfx Hends) as [Hw Hsum].
  set (base := Dictionary.sliceEnd w (length sfx)) in *.
  assert (forallb isLower w = true -> forallb isLower base = true) as Hlow.
  { intros H. subst base. unfold Dictionary.sliceEnd.
    destruct (length sfx); [reflexivity | by apply forallb_take]. }
  apply in_app_or in Hc as [Hc | Hc]; [|apply in_app_or in Hc as [Hc | Hc]].
  - destruct Hc as [<- | []].
    split; [intros H; rewrite H in Hsum; cbn in Hsum; lia|].
    split; [lia|]. split; [|exact Hlow].
    intros H. rewrite H in Hsum. lia.
  - destruct (Dictionary.doubled base) eqn:Hd; [|destruct Hc].
    destruct Hc as [<- | []].
    apply andb_true_iff in Hd as [Hd%Nat.leb_le _].
    assert (length (Dictionary.sliceEnd base 1) = (length base - 1)%nat) as Hl
      by (cbn; rewrite length_take; lia).
    split; [intros H; rewrite H in Hl; cbn in Hl; lia|].
    split; [lia|]. split; [intros H; rewrite H in Hl; lia|].
    intros H. cbn. by apply forallb_take, Hlow.
  - destruct Hc as [<- | []].
    split; [by destruct base|].
    split; [rewrite length_app; cbn; lia|]. split.
    + intros H. assert (base ++ js "e" = base ++ sfx) as H' by congruence.
      apply app_inv_head in H'. congruence.
    + intros H. rewrite forallb_app, (Hlow H). reflexivity.
Qed.

Lemma getBaseForm_candidate (wordData : gmap jsstring Dictionary.entry) (w b : jsstring) :
  Dictionary.getBaseForm wordData w = Some b ->
  Dictionary.truthy wordData b = true
  /\ exists row, In row Dictionary.suffixes /\ In b (specCandidatesFor w row).
Proof.
  unfold Dictionary.getBaseForm. rewrite getBaseFormFrom_first.
  intros [Hin Ht]%find_some. split; [exact Ht|].
  apply in_flat_map in Hin as (row & Hrow & Hb). eauto.
Qed.

(** X2. The base form that [getBaseForm] returns is a key the store answers
    for; it is not empty (the test [baseForm &&] of [lookup] never fails), it
    is not longer than the word and it is not the word itself. *)
Theorem getBaseForm_shape (wordData : gmap jsstring Dictionary.entry) (w b : jsstring) :
  Dictionary.getBaseForm wordData w = Some b ->
  Dictionary.truthy wordData b = true
  /\ b <> [] /\ (length b <= length w)%nat /\ b <> w.
Proof.
  intros (Ht & row & Hrow & Hb)%getBaseForm_candidate.
  pose proof suffixes_shape as Hshape. rewrite Forall_forall in Hshape.
  destruct (Hshape row) as [Hlen He]; [by apply list_elem_of_In|].
  destruct (candidate_shape w b row Hlen He Hb) as (H1 & H2 & H3 & _).
  auto.
Qed.

Lemma getBaseForm_shape_witness :
  Dictionary.getBaseForm {[ js "run" := Dictionary.mkEntry None None None [] ]}
    (js "running") = Some (js "run")
  /\ js "run" <> js "running".
Proof.
  assert (Dictionary.getBaseForm {[ js "run" := Dictionary.mkEntry None None None [] ]}
            (js "running") = Some (js "run")) as H by (vm_compute; reflexivity).
  split; [exact H|].
  apply (getBaseForm_shape _ _ _ H).
Defined.

Lemma getBaseForm_lower (wordData : gmap jsstring Dictionary.entry) (w b : jsstring) :
  forallb isLower w = true ->
  Dictionary.getBaseForm wordData w = Some b -> forallb isLower b = true.
Proof.
  intros Hw (_ & row & Hrow & Hb)%getBaseForm_candidate.
  pose proof suffixes_shape as Hshape. rewrite Forall_forall in Hshape.
  destruct (Hshape row) as [Hlen He]; [by apply list_elem_of_In|].
  by apply (candidate_shape w b row Hlen He Hb).
Qed.

Lemma get_lookup (wordData : gmap jsstring Dictionary.entry) (key : jsstring)
    (p : Dictionary.property) :
  Dictionary.get wordData key = Some p ->
  Dictionary.spread p = wordData !! key /\ Dictionary.truthy wordData key = true.
Proof.
  unfold Dictionary.truthy. intros H. rewrite H. split; [|reflexivity].
  unfold Dictionary.get in H. destruct (wordData !! key) as [e|].
  - by injection H as <-.
  - destruct (bool_decide _); [by injection H as <- | discriminate].
Qed.

Lemma getBaseForm_not_word (wordData : gmap jsstring Dictionary.entry) (w b : jsstring) :
  Dictionary.getBaseForm wordData w = Some b -> b <> w.
Proof.
  intros (_ & row & Hrow & Hb)%getBaseForm_candidate.
  pose proof suffixes_shape as Hshape. rewrite Forall_forall in Hshape.
  destruct (Hshape row) as [Hlen He]; [by apply list_elem_of_In|].
  by apply (candidate_shape w b row Hlen He Hb).
Qed.

(** The key under which a lookup answers. *)
Lemma lookup_key (wordData : gmap jsstring Dictionary.entry) (w : jsstring)
    (info : Dictionary.wordInfo) :
  Dictionary.lookup wordData w = Some info ->
  forallb isLower (Dictionary.word info) = true
  /\ Dictionary.truthy wordData (Dictionary.word info) = true
  /\ Dictionary.fields info = wordData !! Dictionary.word info.
Proof.
  destruct w as [|c t]; [discriminate|]. cbn [Dictionary.lookup]. cbv zeta.
  pose proof (normalize_lower (c :: t)) as Hlow.
  set (n := Dictionary.normalize (c :: t)) in *.
  destruct (Dictionary.get wordData n) as [p|] eqn:Hget.
  - intros [= <-]. cbn [Dictionary.word Dictionary.originalWord Dictionary.fields].
    destruct (get_lookup _ _ _ Hget) as [Hs Ht]. auto.
  - destruct (Dictionary.getBaseForm wordData n) as [b|] eqn:Hb; [|discriminate].
    destruct b as [|b0 b]; [discriminate|].
    destruct (Dictionary.get wordData (b0 :: b)) as [p|] eqn:Hgetb; [|discriminate].
    intros [= <-]. cbn [Dictionary.word Dictionary.originalWord Dictionary.fields].
    destruct (get_lookup _ _ _ Hgetb) as [Hs Ht].
    split; [exact (getBaseForm_lower _ _ _ Hlow Hb)|]. auto.
Qed.

(** X1. What [lookup] returns: the input is not empty; [word] is made of
    [a-z] only and is a key the store answers for, and the fields are those
    of the record stored under it; without [originalWord] the key is the
    normal form of the input, with it the normal form is [originalWord], has
    no entry of its own, and [word] is its base form, another key. *)
Theorem lookup_sound (wordData : gmap jsstring Dictionary.entry) (w : jsstring)
    (info : Dictionary.wordInfo) :
  Dictionary.lookup wordData w = Some info ->
  w <> []
  /\ forallb isLower (Dictionary.word info) = true
  /\ Dictionary.truthy wordData (Dictionary.word info) = true
  /\ Dictionary.fields info = wordData !! Dictionary.word info
  /\ ((Dictionary.originalWord info = None
       /\ Dictionary.word info = Dictionary.normalize w)
      \/ (Dictionary.originalWord info = Some (Dictionary.normalize w)
          /\ Dictionary.truthy wordData (Dictionary.normalize w) = false
          /\ Dictionary.getBaseForm wordData (Dictionary.normalize w)
             = Some (Dictionary.word info)
          /\ Dictionary.word info <> Dictionary.normalize w)).
Proof.
  intros Hinfo. destruct (lookup_key _ _ _ Hinfo) as (Hlow & Ht & Hf).
  split; [by destruct w|]. split; [exact Hlow|]. split; [exact Ht|].
  split; [exact Hf|]. clear Hlow Ht Hf.
  destruct w as [|c t]; [discriminate|]. cbn [Dictionary.lookup] in Hinfo.
  cbv zeta in Hinfo. set (n := Dictionary.normalize (c :: t)) in *.
  destruct (Dictionary.get wordData n) as [p|] eqn:Hget.
  - injection Hinfo as <-. by left.
  - destruct (Dictionary.getBaseForm wordData n) as [b|] eqn:Hb; [|discriminate].
    destruct b as [|b0 b]; [discriminate|].
    destruct (Dictionary.get wordData (b0 :: b)) as [p|]; [|discriminate].
    injection Hinfo as <-. right.
    cbn [Dictionary.word Dictionary.originalWord Dictionary.fields].
    split; [reflexivity|]. split; [unfold Dictionary.truthy; by rewrite Hget|].
    split; [reflexivity|]. exact (getBaseForm_not_word _ _ _ Hb).
Qed.

Lemma lookup_sound_witness :
  Dictionary.lookup {[ js "practice" := Dictionary.mkEntry None None None [] ]}
    (js "Practicing!")
  = Some (Dictionary.mkWordInfo (js "practice") (Some (js "practicing"))
            (Some (Dictionary.mkEntry None None None [])))
  /\ Dictionary.truthy {[ js "practice" := Dictionary.mkEntry None None None [] ]}
       (js "practice") = true.
Proof.
  assert (Dictionary.lookup {[ js "practice" := Dictionary.mkEntry None None None [] ]}
            (js "Practicing!")
          = Some (Dictionary.mkWordInfo (js "practice") (Some (js "practicing"))
                    (Some (Dictionary.mkEntry None None None [])))) as H
    by (vm_compute; reflexivity).
  split; [exact H|].
  exact (proj1 (proj2 (proj2 (lookup_sound _ _ _ H)))).
Defined.

(** X3. Words of one or two letters are never stemmed: such a word has no
    base form, and a lookup whose normal form is that short is answered
    under the normal form itself or not at all. *)
Theorem short_words_not_stemmed (wordData : gmap jsstring Dictionary.entry)
    (w : jsstring) :
  ((length w < 3)%nat -> Dictionary.getBaseForm wordData w = None)
  /\ ((length (Dictionary.normalize w) < 3)%nat ->
      forall info : Dictionary.wordInfo,
        Dictionary.lookup wordData w = Some info ->
        Dictionary.word info = Dictionary.normalize w
        /\ Dictionary.originalWord info = None).
Proof.
  assert (forall v : jsstring,
             (length v < 3)%nat -> Dictionary.getBaseForm wordData v = None) as Hshort.
  { intros v Hv. destruct (Dictionary.getBaseForm wordData v) as [b|] eqn:Hb;
      [|reflexivity].
    apply getBaseForm_candidate in Hb as (_ & row & Hrow & Hin).
    exfalso. revert Hin. unfold specCandidatesFor. destruct row as [sfx minLength].
    assert (3 <= minLength)%nat as Hmin.
    { pose proof suffixes_minLength as Hall. rewrite Forall_forall in Hall.
      apply (Hall (sfx, minLength)). by apply list_elem_of_In. }
    destruct (Nat.leb_spec minLength (length v)); [lia|]. cbn. tauto. }
  split; [apply Hshort|].
  intros Hn info Hinfo.
  destruct w as [|c t]; [discriminate|]. cbn [Dictionary.lookup] in Hinfo.
  cbv zeta in Hinfo.
  destruct (Dictionary.get wordData (Dictionary.normalize (c :: t))) as [p|].
  - by injection Hinfo as <-.
  - rewrite (Hshort _ Hn) in Hinfo. discriminate.
Qed.

Lemma short_words_not_stemmed_witness :
  (length (js "as") < 3)%nat
  /\ Dictionary.getBaseForm {[ js "a" := Dictionary.mkEntry None None None [] ]}
       (js "as") = None.
Proof.
  assert (length (js "as") < 3)%nat as H by (cbn; lia).
  split; [exact H|].
  exact (proj1 (short_words_not_stemmed _ (js "as")) H).
Defined.

Lemma lower_prototype_name (key : jsstring) :
  forallb isLower key = true -> key ∈ Dictionary.objectPrototype ->
  key = js "constructor".
Proof.
  intros Hlow Hin. apply list_elem_of_In in Hin.
  repeat (destruct Hin as [<- | Hin]; [first [reflexivity | discriminate]|]).
  destruct Hin.
Qed.

(** X4. The names that a plain object inherits reach the lookup through one
    word only.  A result whose word is not a key of the store is the word
    "constructor"; and in every store, with or without that key, an input
    whose normal form is "constructor" is found under that word, not as a
    derived form, and [has] answers true for it. *)
Theorem inherited_key_is_constructor (wordData : gmap jsstring Dictionary.entry)
    (w : jsstring) :
  (forall info : Dictionary.wordInfo,
      Dictionary.lookup wordData w = Some info ->
      wordData !! Dictionary.word info = None ->
      Dictionary.word info = js "constructor")
  /\ (Dictionary.normalize w = js "constructor" ->
      (exists info : Dictionary.wordInfo,
          Dictionary.lookup wordData w = Some info
          /\ Dictionary.word info = js "constructor"
          /\ Dictionary.originalWord info = None)
      /\ Dictionary.has wordData w = true).
Proof.
  split.
  - intros info Hinfo Hnone.
    destruct (lookup_key _ _ _ Hinfo) as (Hlow & Ht & _).
    apply lower_prototype_name; [exact Hlow|].
    unfold Dictionary.truthy, Dictionary.get in Ht. rewrite Hnone in Ht.
    destruct (bool_decide (Dictionary.word info ∈ Dictionary.objectPrototype)) eqn:Hd;
      [by apply bool_decide_eq_true in Hd | discriminate].
  - intros Hn.
    assert (Dictionary.lookup wordData w
            = Some (Dictionary.mkWordInfo (js "constructor") None
                      (wordData !! js "constructor"))) as Hl.
    { destruct w as [|c t]; [discriminate|]. cbn [Dictionary.lookup]. cbv zeta.
      rewrite Hn. unfold Dictionary.get.
      destruct (wordData !! js "constructor") as [e|]; [reflexivity|].
      assert (bool_decide (js "constructor" ∈ Dictionary.objectPrototype) = true) as ->
        by (vm_compute; reflexivity).
      reflexivity. }
    split; [|unfold Dictionary.has; by rewrite Hl].
    eexists. split; [exact Hl|]. by split.
Qed.

Lemma inherited_key_is_constructor_witness :
  Dictionary.normalize (js "Constructor!") = js "constructor"
  /\ Dictionary.has ∅ (js "Constructor!") = true.
Proof.
  assert (Dictionary.normalize (js "Constructor!") = js "constructor") as H
    by (vm_compute; reflexivity).
  split; [exact H|].
  exact (proj2 (proj2 (inherited_key_is_constructor ∅ (js "Constructor!")) H)).
Defined.

(** ** The choice of the voice *)

Lemma find_existsb {A} (p : A -> bool) (l : list A) :
  match List.find p l with
  | Some x => In x l /\ p x = true /\ existsb p l = true
  | None => existsb p l = false
  end.
Proof.
  induction l as [|x l IH]; [reflexivity|]. cbn.
  destruct (p x) eqn:Hx; [auto|]. cbn.
  destruct (List.find p l); [|exact IH]. destruct IH as (? & ? & ?). auto.
Qed.

(** X5. The voice that [loadVoices] settles on is one of the voices the
    browser offers, and there is none only if the browser offers none.  A
    voice for en-US is taken before one for en-GB, that before any voice whose
    language starts with "en", and that before the first voice of the list;
    so whenever an English voice is offered, an English voice is chosen.  The
    module is ready once a voice was chosen, and stays so. *)
Theorem voice_choice (available : list TTS.voice) (t : TTS.voices_state) :
  TTS.voices (TTS.loadVoices available t) = available
  /\ (forall v, TTS.englishVoice (TTS.loadVoices available t) = Some v -> In v available)
  /\ (TTS.englishVoice (TTS.loadVoices available t) = None <-> available = [])
  /\ (existsb (fun v => bool_decide (TTS.lang v = js "en-US")) available = true ->
      exists v, TTS.englishVoice (TTS.loadVoices available t) = Some v
                /\ TTS.lang v = js "en-US")
  /\ (existsb (fun v => bool_decide (TTS.lang v = js "en-US")) available = false ->
      existsb (fun v => bool_decide (TTS.lang v = js "en-GB")) available = true ->
      exists v, TTS.englishVoice (TTS.loadVoices available t) = Some v
                /\ TTS.lang v = js "en-GB")
  /\ (existsb (fun v => TTS.startsWith (TTS.lang v) (js "en")) available = true ->
      exists v, TTS.englishVoice (TTS.loadVoices available t) = Some v
                /\ TTS.startsWith (TTS.lang v) (js "en") = true)
  /\ (existsb (fun v => TTS.startsWith (TTS.lang v) (js "en")) available = false ->
      TTS.englishVoice (TTS.loadVoices available t) = head available)
  /\ TTS.isReady (TTS.loadVoices available t)
     = TTS.isReady t || match available with [] => false | _ :: _ => true end.
Proof.
  unfold TTS.loadVoices. cbv zeta.
  pose proof (find_existsb (fun v => bool_decide (TTS.lang v = js "en-US")) available) as Hus.
  pose proof (find_existsb (fun v => bool_decide (TTS.lang v = js "en-GB")) available) as Hgb.
  pose proof (find_existsb (fun v => TTS.startsWith (TTS.lang v) (js "en")) available) as Hen.
  destruct (List.find (fun v => bool_decide (TTS.lang v = js "en-US")) available)
    as [v1|]; cbn [TTS.orElse].
  { destruct Hus as (Hin & Hv%bool_decide_eq_true & Hex).
    assert (TTS.startsWith (TTS.lang v1) (js "en") = true) as Hs by (by rewrite Hv).
    cbn [TTS.voices TTS.englishVoice TTS.isReady]. split; [reflexivity|]. split; [by intros v [= <-]|].
    split; [split; [discriminate | by intros ->]|].
    split; [by exists v1|]. split; [congruence|].
    split; [by exists v1|]. split.
    - intros Hnone. exfalso.
      assert (existsb (fun v => TTS.startsWith (TTS.lang v) (js "en")) available = true)
        as He by (apply existsb_exists; by exists v1).
      congruence.
    - destruct available; [done | by rewrite orb_true_r]. }
  destruct (List.find (fun v => bool_decide (TTS.lang v = js "en-GB")) available)
    as [v2|]; cbn [TTS.orElse].
  { destruct Hgb as (Hin & Hv%bool_decide_eq_true & Hex).
    assert (TTS.startsWith (TTS.lang v2) (js "en") = true) as Hs by (by rewrite Hv).
    cbn [TTS.voices TTS.englishVoice TTS.isReady]. split; [reflexivity|]. split; [by intros v [= <-]|].
    split; [split; [discriminate | by intros ->]|].
    split; [congruence|]. split; [by exists v2|].
    split; [by exists v2|]. split.
    - intros Hnone. exfalso.
      assert (existsb (fun v => TTS.startsWith (TTS.lang v) (js "en")) available = true)
        as He by (apply existsb_exists; by exists v2).
      congruence.
    - destruct available; [done | by rewrite orb_true_r]. }
  destruct (List.find (fun v => TTS.startsWith (TTS.lang v) (js "en")) available)
    as [v3|].
  { destruct Hen as (Hin & Hv & Hex).
    cbn [TTS.voices TTS.englishVoice TTS.isReady]. split; [reflexivity|]. split; [by intros v [= <-]|].
    split; [split; [discriminate | by intros ->]|].
    split; [congruence|]. split; [congruence|].
    split; [by exists v3|]. split; [congruence|].
    destruct available; [done | by rewrite orb_true_r]. }
  destruct available as [|v0 rest]; cbn [TTS.voices TTS.englishVoice TTS.isReady head].
  - split; [reflexivity|]. split; [discriminate|]. split; [done|].
    split; [discriminate|]. split; [discriminate|]. split; [discriminate|].
    split; [reflexivity|]. by rewrite orb_false_r.
  - split; [reflexivity|]. split; [intros v [= <-]; by left|].
    split; [split; discriminate|].
    split; [congruence|]. split; [congruence|]. split; [congruence|].
    split; [reflexivity|]. by rewrite orb_true_r.
Qed.

Lemma voice_choice_witness :
  existsb (fun v => bool_decide (TTS.lang v = js "en-US"))
    [TTS.mkVoice (js "Anna") (js "de-DE"); TTS.mkVoice (js "Daniel") (js "en-GB");
     TTS.mkVoice (js "Samantha") (js "en-US")] = true
  /\ exists v,
      TTS.englishVoice
        (TTS.loadVoices
           [TTS.mkVoice (js "Anna") (js "de-DE"); TTS.mkVoice (js "Daniel") (js "en-GB");
            TTS.mkVoice (js "Samantha") (js "en-US")]
           (TTS.mkVoices [] None false)) = Some v
      /\ TTS.lang v = js "en-US".
Proof.
  assert (existsb (fun v => bool_decide (TTS.lang v = js "en-US"))
            [TTS.mkVoice (js "Anna") (js "de-DE"); TTS.mkVoice (js "Daniel") (js "en-GB");
             TTS.mkVoice (js "Samantha") (js "en-US")] = true) as H
    by (vm_compute; reflexivity).
  split; [exact H|].
  exact (proj1 (proj2 (proj2 (proj2 (voice_choice _ (TTS.mkVoices [] None false))))) H).
Defined.

(** ** Playback from start to end *)

(** Case analysis on the tests of a handler run on an explicit state. *)
Ltac handler_cases :=
  cbn;
  repeat (match goal with
          | |- context [if ?b then _ else _] => destruct b
          | |- context [match ?x with Some _ => _ | None => _ end] => destruct x
          end; cbn);
  auto.

(** [highlightWord] writes the word elements and the index, nothing else. *)
Lemma highlightWord_frame (index : Z) (s : state) :
  highlightWord index s
  = set_currentWordIndex index
      (set_wordElements (wordElements (highlightWord index s)) s).
Proof. destruct s. unfold highlightWord, inBounds. handler_cases. Qed.

Lemma stopHighlighting_frame (s : state) :
  stopHighlighting s = set_highlightTimer None s.
Proof. destruct s as [? ? ? ? ? [tm|] ? ? ? ? ? ? ? ?]; reflexivity. Qed.

(** The state that stop leaves. *)
Lemma handleStop_state (s : state) :
  handleStop s
  = mkState (currentText s) (words s) (map (setActive false) (wordElements s)) (-1)
      false None (boundaryFired s) (isSingleWordMode s) (shadowingDisplay s)
      "Stopped" false HandleSpeechEnd None (timeouts s).
Proof. destruct s as [? ? ? ? ? [tm|] ? ? ? ? ? ? ? ?]; reflexivity. Qed.

Lemma handleShadowingComplete_state (s : state) :
  handleShadowingComplete s
  = mkState (currentText s) (words s) (map (setActive false) (wordElements s)) (-1)
      false None (boundaryFired s) (isSingleWordMode s) (shadowingDisplay s)
      "Shadowing complete! Click words to learn more." false HandleSpeechEnd
      (currentUtterance s) (timeouts s).
Proof. destruct s as [? ? ? ? ? [tm|] ? ? ? ? ? ? ? ?]; reflexivity. Qed.

Lemma handleSpeechEnd_state (s : state) :
  handleSpeechEnd s
  = if isSingleWordMode s then set_isSingleWordMode false s
    else mkState (currentText s) (words s) (map (setActive false) (wordElements s))
           (-1) (isShadowingMode s) None (boundaryFired s) false (shadowingDisplay s)
           "Done. Click words to learn more." (false) (onEnd s)
           (currentUtterance s) (timeouts s).
Proof. destruct s as [? ? ? ? ? [tm|] ? [|] ? ? ? ? ? ?]; reflexivity. Qed.

Lemma map_setActive_false_twice (l : list element) :
  map (setActive false) (map (setActive false) l) = map (setActive false) l.
Proof. rewrite map_map. reflexivity. Qed.

Lemma handleStop_idle (s : state) :
  idle (handleStop s) /\ words (handleStop s) = words s.
Proof.
  rewrite handleStop_state. unfold idle, activeElements. cbn.
  rewrite activeElements_clear. auto 10.
Qed.

(** X8. Stop leaves the program idle whatever it was doing: nothing is being
    spoken, no ticker is registered, no word is highlighted, the shadowing
    run is off, the buttons are enabled and the end callback is the plain
    one; the tokens and the texts of the word elements stay.  A second stop
    changes nothing more. *)
Theorem stop_idle_idempotent (s : state) :
  idle (handleStop s)
  /\ statusText (handleStop s) = "Stopped"%string
  /\ words (handleStop s) = words s
  /\ map textContent (wordElements (handleStop s)) = map textContent (wordElements s)
  /\ handleStop (handleStop s) = handleStop s.
Proof.
  split; [apply handleStop_idle|].
  rewrite (handleStop_state (handleStop s)), !handleStop_state.
  cbn [currentText words wordElements currentWordIndex isShadowingMode highlightTimer
       boundaryFired isSingleWordMode shadowingDisplay statusText buttonsDisabled
       onEnd currentUtterance timeouts].
  split; [reflexivity|]. split; [reflexivity|].
  split; [by rewrite map_map|].
  by rewrite map_setActive_false_twice.
Qed.

(** *** What each step may write

    The word elements, the index, the ticker and the flag are hidden behind
    variables, so that the rest of the state can be read off. *)

Lemma highlightWord_writes (index : Z) (s : state) :
  exists els, highlightWord index s
              = set_currentWordIndex index (set_wordElements els s).
Proof. eexists. apply highlightWord_frame. Qed.

Lemma startHighlighting_writes (r : rate) (s : state) :
  exists els idx tm,
    startHighlighting r s
    = set_highlightTimer tm (set_currentWordIndex idx (set_wordElements els s)).
Proof.
  unfold startHighlighting. cbv zeta. rewrite stopHighlighting_frame.
  destruct (length (wordElements (set_highlightTimer None s)) =? 0)%nat.
  - exists (wordElements s), (currentWordIndex s), None. by destruct s.
  - destruct (highlightWord_writes 0 (set_highlightTimer None s)) as [els ->].
    exists els, 0, (Some (mkTimer r 1)). by destruct s.
Qed.

Lemma timerTick_writes (s : state) :
  exists els idx tm,
    timerTick s
    = set_highlightTimer tm (set_currentWordIndex idx (set_wordElements els s)).
Proof.
  unfold timerTick. destruct (highlightTimer s) as [tm|] eqn:Htm.
  - destruct (boundaryFired s).
    + exists (wordElements s), (currentWordIndex s), (Some tm). destruct s. cbn in *.
      by rewrite Htm.
    + destruct (wordIndex tm <? length (wordElements s))%nat.
      * destruct (highlightWord_writes (Z.of_nat (wordIndex tm)) s) as [els ->].
        eexists els, _, _. by destruct s.
      * rewrite stopHighlighting_frame.
        exists (wordElements s), (currentWordIndex s), None. by destruct s.
  - exists (wordElements s), (currentWordIndex s), None. destruct s. cbn in *.
    by rewrite Htm.
Qed.

Lemma handleWordBoundary_writes (charIndex charLength : Z) (s : state) :
  exists els idx fired,
    handleWordBoundary charIndex charLength s
    = set_boundaryFired fired (set_currentWordIndex idx (set_wordElements els s)).
Proof.
  unfold handleWordBoundary. destruct (isSingleWordMode s).
  - exists (wordElements s), (currentWordIndex s), (boundaryFired s). by destruct s.
  - cbv zeta. destruct (findSpokenWord _ _ _ _) as [found|].
    + destruct (highlightWord_writes found (set_boundaryFired true s)) as [els ->].
      exists els, found, true. by destruct s.
    + exists (wordElements s), (currentWordIndex s), true. by destruct s.
Qed.

Lemma prepareDisplay_writes (text : jsstring) (s : state) :
  exists nodes els,
    prepareDisplay text s
    = mkState text (tokenize text) els (-1) (isShadowingMode s) (highlightTimer s)
        false (isSingleWordMode s) nodes (statusText s) (buttonsDisabled s)
        (onEnd s) (currentUtterance s) (timeouts s).
Proof. eexists _, _. reflexivity. Qed.

(** The signals of the synchronizer leave the controller alone. *)
Lemma signal_controller (s : state) (e : event) :
  isSignal e = true ->
  isShadowingMode (step s e) = isShadowingMode s
  /\ isSingleWordMode (step s e) = isSingleWordMode s
  /\ onEnd (step s e) = onEnd s
  /\ timeouts (step s e) = timeouts s
  /\ buttonsDisabled (step s e) = buttonsDisabled s
  /\ words (step s e) = words s.
Proof.
  destruct e; try discriminate; intros _; cbn [step].
  - destruct (handleWordBoundary_writes charIndex charLength s)
      as (els & idx & fired & ->). by destruct s.
  - destruct (timerTick_writes s) as (els & idx & tm & ->). by destruct s.
Qed.

Lemma run_app (s : state) (es1 es2 : list event) :
  run s (es1 ++ es2) = run (run s es1) es2.
Proof. apply fold_left_app. Qed.

Lemma signals_controller (es : list event) (s : state) :
  forallb isSignal es = true ->
  isShadowingMode (run s es) = isShadowingMode s
  /\ isSingleWordMode (run s es) = isSingleWordMode s
  /\ onEnd (run s es) = onEnd s
  /\ timeouts (run s es) = timeouts s
  /\ buttonsDisabled (run s es) = buttonsDisabled s
  /\ words (run s es) = words s.
Proof.
  revert s. induction es as [|e es IH]; intros s Hes; [by repeat split|].
  cbn in Hes. apply andb_true_iff in Hes as [He Hes].
  destruct (signal_controller s e He) as (<- & <- & <- & <- & <- & <-).
  exact (IH (step s e) Hes).
Qed.

(** The end of an utterance with one of the three callbacks in place. *)
Lemma plain_end_idle (s : state) :
  onEnd s = HandleSpeechEnd -> isSingleWordMode s = false ->
  isShadowingMode s = false ->
  idle (step s UtteranceEnd)
  /\ statusText (step s UtteranceEnd) = "Done. Click words to learn more."%string
  /\ words (step s UtteranceEnd) = words s
  /\ timeouts (step s UtteranceEnd) = timeouts s.
Proof.
  intros He Hs Hm. cbn [step]. unfold runOnEnd.
  change (onEnd (set_currentUtterance None s)) with (onEnd s). rewrite He.
  rewrite handleSpeechEnd_state.
  change (isSingleWordMode (set_currentUtterance None s)) with (isSingleWordMode s).
  rewrite Hs. destruct s. cbn in *. subst.
  unfold idle, activeElements. cbn. rewrite activeElements_clear. auto 10.
Qed.

Lemma slow_phase_end_idle (s : state) :
  onEnd s = SlowPhaseEnd ->
  idle (step s UtteranceEnd)
  /\ statusText (step s UtteranceEnd)
     = "Shadowing complete! Click words to learn more."%string
  /\ words (step s UtteranceEnd) = words s
  /\ timeouts (step s UtteranceEnd) = timeouts s.
Proof.
  intros He. cbn [step]. unfold runOnEnd.
  change (onEnd (set_currentUtterance None s)) with (onEnd s). rewrite He.
  rewrite handleShadowingComplete_state. destruct s.
  unfold idle, activeElements. cbn. rewrite activeElements_clear. auto 10.
Qed.

Lemma idle_quiet (s : state) : idle s -> quiet s.
Proof. unfold idle, quiet. tauto. Qed.

Lemma late_callback_quiet (s : state) (e : event) :
  isLateCallback e = true -> quiet s ->
  quiet (step s e) /\ words (step s e) = words s
  /\ (isSingleWordMode s = false -> isSingleWordMode (step s e) = false).
Proof.
  intros He (Ht & Hm & Hb & Hu & Ho). destruct e; try discriminate; cbn [step].
  - destruct (handleWordBoundary_writes charIndex charLength s)
      as (els & idx & fired & ->).
    unfold quiet. destruct s. cbn in *. auto 10.
  - unfold runOnEnd.
    change (onEnd (set_currentUtterance None s)) with (onEnd s). rewrite Ho.
    rewrite handleSpeechEnd_state.
    change (isSingleWordMode (set_currentUtterance None s)) with (isSingleWordMode s).
    unfold quiet.
    destruct s as [? ? ? ? ? ? ? single ? ? ? ? ? ?]. cbn in *. subst.
    destruct single; cbn; auto 10.
  - unfold timerTick. rewrite Ht. unfold quiet. auto 10.
  - destruct (timeouts s) as [|[delay text] pending]; [unfold quiet; auto 10|].
    unfold restartElapsed.
    change (isShadowingMode (set_timeouts pending s)) with (isShadowingMode s).
    rewrite Hm. cbn [negb]. unfold quiet. destruct s. cbn in *. auto 10.
Qed.

Lemma late_callback_idle (s : state) (e : event) :
  isLateCallback e = true -> isWordBoundary e = false -> idle s ->
  idle (step s e).
Proof.
  intros He Hb Hidle. destruct e; try discriminate; cbn [step].
  - unfold runOnEnd.
    change (onEnd (set_currentUtterance None s)) with (onEnd s).
    destruct Hidle as (Hc & Ha & Ht & Hm & Hd & Hu & Ho). rewrite Ho.
    rewrite handleSpeechEnd_state.
    change (isSingleWordMode (set_currentUtterance None s)) with (isSingleWordMode s).
    unfold idle, activeElements in *.
    destruct s as [? ? ? ? ? ? ? single ? ? ? ? ? ?]. cbn in *. subst.
    destruct single; cbn; rewrite ?activeElements_clear; auto 10.
  - destruct Hidle as (Hc & Ha & Ht & Hm & Hd & Hu & Ho).
    unfold timerTick. rewrite Ht. unfold idle. auto 10.
  - destruct Hidle as (Hc & Ha & Ht & Hm & Hd & Hu & Ho).
    destruct (timeouts s) as [|[delay text] pending]; [unfold idle; auto 10|].
    unfold restartElapsed.
    change (isShadowingMode (set_timeouts pending s)) with (isShadowingMode s).
    rewrite Hm. cbn [negb]. unfold idle, activeElements in *.
    destruct s. cbn in *. auto 10.
Qed.

Lemma late_callbacks_quiet (es : list event) (p : state) :
  forallb isLateCallback es = true -> quiet p ->
  quiet (run p es) /\ words (run p es) = words p
  /\ (isSingleWordMode p = false -> isSingleWordMode (run p es) = false)
  /\ (existsb isWordBoundary es = false -> idle p -> idle (run p es)).
Proof.
  revert p. induction es as [|e es IH]; intros p Hes Hp;
    [change (run p []) with p; auto|].
  cbn in Hes. apply andb_true_iff in Hes as [He Hes].
  destruct (late_callback_quiet p e He Hp) as (Hq & Hw & Hs).
  destruct (IH (step p e) Hes Hq) as (H1 & H2 & H3 & H4).
  change (run p (e :: es)) with (run (step p e) es).
  split; [exact H1|]. split; [congruence|]. split; [by intros H; apply H3, Hs|].
  cbn [existsb]. intros Hb Hidle. apply orb_false_iff in Hb as [Hb1 Hb2].
  apply (H4 Hb2). by apply late_callback_idle.
Qed.

(** X9. What arrives late, after stop and before any new request.  Boundary
    notifications, utterance ends, ticks and restart timeouts, in any order
    and number, start no playback: no ticker is registered, the shadowing
    mode stays off, the buttons stay enabled, nothing is being spoken, the
    plain end callback stays in place and the tokens are as they were.
    Without a boundary notification among them the program stays idle.  A
    late boundary notification is not held back, however: outside
    single-word mode it marks the boundary events as working and highlights
    the word it resolves to, so that the program is no longer idle. *)
Theorem late_callbacks_after_stop (s : state) (es : list event) :
  forallb isLateCallback es = true ->
  quiet (run (handleStop s) es)
  /\ words (run (handleStop s) es) = words s
  /\ (existsb isWordBoundary es = false -> idle (run (handleStop s) es))
  /\ (forall charIndex charLength found : Z,
        isSingleWordMode s = false ->
        findSpokenWord charIndex (words s) 0 0 = Some found ->
        currentWordIndex (run (handleStop s) (es ++ [WordBoundary charIndex charLength]))
        = found
        /\ boundaryFired (run (handleStop s) (es ++ [WordBoundary charIndex charLength]))
           = true
        /\ ~ idle (run (handleStop s) (es ++ [WordBoundary charIndex charLength]))).
Proof.
  intros Hes.
  destruct (handleStop_idle s) as [Hidle Hwords].
  destruct (late_callbacks_quiet es (handleStop s) Hes (idle_quiet _ Hidle))
    as (H1 & H2 & H3 & H4).
  split; [exact H1|]. split; [congruence|]. split; [by intros Hb; apply H4|].
  intros charIndex charLength found Hsingle Hfound.
  rewrite run_app. set (p := run (handleStop s) es) in *.
  assert (isSingleWordMode p = false) as Hp.
  { apply H3. rewrite handleStop_state. exact Hsingle. }
  assert (words p = words s) as Hw by congruence.
  change (run p [WordBoundary charIndex charLength])
    with (handleWordBoundary charIndex charLength p).
  unfold handleWordBoundary. rewrite Hp. cbv zeta.
  change (words (set_boundaryFired true p)) with (words p). rewrite Hw, Hfound.
  destruct (highlightWord_fields found (set_boundaryFired true p))
    as (Hf & _ & _ & Hc & _).
  split; [exact Hc|]. split; [exact Hf|].
  intros (Hi & _). rewrite Hc in Hi.
  pose proof (findSpokenWord_bound _ _ _ _ _ Hfound). lia.
Qed.

Lemma late_callbacks_after_stop_witness :
  forallb isLateCallback [UtteranceEnd; WordBoundary 7 5; TimeoutElapsed; IntervalElapsed]
  = true
  /\ quiet (run (handleStop shadowingPaused)
              [UtteranceEnd; WordBoundary 7 5; TimeoutElapsed; IntervalElapsed])
  /\ currentWordIndex
       (run (handleStop shadowingPaused)
          ([UtteranceEnd; WordBoundary 7 5; TimeoutElapsed; IntervalElapsed]
           ++ [WordBoundary 0 5])) = 0.
Proof.
  assert (forallb isLateCallback
            [UtteranceEnd; WordBoundary 7 5; TimeoutElapsed; IntervalElapsed] = true)
    as H by reflexivity.
  split; [exact H|].
  split; [exact (proj1 (late_callbacks_after_stop shadowingPaused _ H))|].
  exact (proj1 (proj2 (proj2 (proj2 (late_callbacks_after_stop shadowingPaused _ H)))
                  0 5 0 eq_refl eq_refl)).
Defined.

(** *** Whole runs *)

Lemma handlePlay_controller (textInput : jsstring) (s : state) :
  getCurrentText textInput <> [] ->
  isShadowingMode (handlePlay textInput s) = isShadowingMode s
  /\ isSingleWordMode (handlePlay textInput s) = isSingleWordMode s
  /\ onEnd (handlePlay textInput s) = onEnd s
  /\ timeouts (handlePlay textInput s) = timeouts s
  /\ buttonsDisabled (handlePlay textInput s) = true
  /\ words (handlePlay textInput s) = tokenize (getCurrentText textInput)
  /\ currentUtterance (handlePlay textInput s) = Some (getCurrentText textInput, Rate10).
Proof.
  intros Hne. unfold handlePlay.
  destruct (getCurrentText textInput) as [|c t]; [done|].
  destruct (prepareDisplay_writes (c :: t) s) as (nodes & els & ->).
  unfold TTS_speakNormal.
  match goal with |- context [startHighlighting ?r ?p] =>
    destruct (startHighlighting_writes r p) as (els' & idx & tm & ->) end.
  by destruct s.
Qed.

Lemma handleSlow_controller (textInput : jsstring) (s : state) :
  getCurrentText textInput <> [] ->
  isShadowingMode (handleSlow textInput s) = isShadowingMode s
  /\ isSingleWordMode (handleSlow textInput s) = isSingleWordMode s
  /\ onEnd (handleSlow textInput s) = onEnd s
  /\ timeouts (handleSlow textInput s) = timeouts s
  /\ buttonsDisabled (handleSlow textInput s) = true
  /\ words (handleSlow textInput s) = tokenize (getCurrentText textInput)
  /\ currentUtterance (handleSlow textInput s) = Some (getCurrentText textInput, Rate07).
Proof.
  intros Hne. unfold handleSlow.
  destruct (getCurrentText textInput) as [|c t]; [done|].
  destruct (prepareDisplay_writes (c :: t) s) as (nodes & els & ->).
  unfold TTS_speakSlow.
  match goal with |- context [startHighlighting ?r ?p] =>
    destruct (startHighlighting_writes r p) as (els' & idx & tm & ->) end.
  by destruct s.
Qed.

(** X11. A playback runs its course: from the idle program, a play or slow
    request with text, then ticks and boundary notifications in any number
    and order, then the end of the utterance (or its error) bring the program
    back to idle, with the buttons enabled, no ticker, no highlight, the
    status line saying done and the tokens of the text kept for clicking. *)
Theorem playback_returns_to_idle (s : state) (textInput : jsstring) (es : list event) :
  idle s -> isSingleWordMode s = false ->
  getCurrentText textInput <> [] ->
  forallb isSignal es = true ->
  (idle (run s (ClickPlay textInput :: es ++ [UtteranceEnd]))
   /\ statusText (run s (ClickPlay textInput :: es ++ [UtteranceEnd]))
      = "Done. Click words to learn more."%string
   /\ words (run s (ClickPlay textInput :: es ++ [UtteranceEnd]))
      = tokenize (getCurrentText textInput))
  /\ (idle (run s (ClickSlow textInput :: es ++ [UtteranceEnd]))
      /\ statusText (run s (ClickSlow textInput :: es ++ [UtteranceEnd]))
         = "Done. Click words to learn more."%string
      /\ words (run s (ClickSlow textInput :: es ++ [UtteranceEnd]))
         = tokenize (getCurrentText textInput)).
Proof.
  intros (_ & _ & _ & Hm & _ & _ & Ho) Hs Hne Hes.
  assert (forall s1 : state,
             isShadowingMode s1 = false -> isSingleWordMode s1 = false ->
             onEnd s1 = HandleSpeechEnd ->
             words s1 = tokenize (getCurrentText textInput) ->
             idle (run s1 (es ++ [UtteranceEnd]))
             /\ statusText (run s1 (es ++ [UtteranceEnd]))
                = "Done. Click words to learn more."%string
             /\ words (run s1 (es ++ [UtteranceEnd]))
                = tokenize (getCurrentText textInput)) as Hrest.
  { intros s1 Hm1 Hs1 Ho1 Hw1. rewrite run_app.
    destruct (signals_controller es s1 Hes) as (Hm2 & Hs2 & Ho2 & _ & _ & Hw2).
    change (run (run s1 es) [UtteranceEnd]) with (step (run s1 es) UtteranceEnd).
    destruct (plain_end_idle (run s1 es)) as (H1 & H2 & H3 & _); [congruence..|].
    split; [exact H1|]. split; [exact H2|]. congruence. }
  split.
  - destruct (handlePlay_controller textInput s Hne) as (H1 & H2 & H3 & _ & _ & H6 & _).
    change (run s (ClickPlay textInput :: es ++ [UtteranceEnd]))
      with (run (handlePlay textInput s) (es ++ [UtteranceEnd])).
    apply Hrest; congruence.
  - destruct (handleSlow_controller textInput s Hne) as (H1 & H2 & H3 & _ & _ & H6 & _).
    change (run s (ClickSlow textInput :: es ++ [UtteranceEnd]))
      with (run (handleSlow textInput s) (es ++ [UtteranceEnd])).
    apply Hrest; congruence.
Qed.

Lemma playback_returns_to_idle_witness :
  idle initial /\ isSingleWordMode initial = false
  /\ getCurrentText helloWorld <> []
  /\ idle (run initial
             (ClickPlay helloWorld
              :: [IntervalElapsed; WordBoundary 7 5; IntervalElapsed] ++ [UtteranceEnd])).
Proof.
  assert (idle initial) as H1 by (by repeat split).
  assert (getCurrentText helloWorld <> []) as H3 by (vm_compute; discriminate).
  split; [exact H1|]. split; [reflexivity|]. split; [exact H3|].
  exact (proj1 (proj1 (playback_returns_to_idle initial helloWorld
                         [IntervalElapsed; WordBoundary 7 5; IntervalElapsed]
                         H1 eq_refl H3 eq_refl))).
Defined.

Lemma handleShadowing_controller (textInput : jsstring) (s : state) :
  getCurrentText textInput <> [] ->
  isShadowingMode (handleShadowing textInput s) = true
  /\ onEnd (handleShadowing textInput s) = NormalPhaseEnd (getCurrentText textInput)
  /\ timeouts (handleShadowing textInput s) = timeouts s
  /\ buttonsDisabled (handleShadowing textInput s) = true
  /\ words (handleShadowing textInput s) = tokenize (getCurrentText textInput)
  /\ highlightTimer (handleShadowing textInput s) = highlightTimer s
  /\ currentWordIndex (handleShadowing textInput s) = -1.
Proof.
  intros Hne. unfold handleShadowing.
  destruct (getCurrentText textInput) as [|c t]; [done|].
  destruct (prepareDisplay_writes (c :: t) s) as (nodes & els & ->).
  by destruct s.
Qed.

Lemma normal_phase_end (text : jsstring) (s : state) :
  onEnd s = NormalPhaseEnd text -> isShadowingMode s = true ->
  isShadowingMode (step s UtteranceEnd) = true
  /\ onEnd (step s UtteranceEnd) = NormalPhaseEnd text
  /\ timeouts (step s UtteranceEnd) = timeouts s ++ [(restartDelay, text)]
  /\ words (step s UtteranceEnd) = words s
  /\ currentUtterance (step s UtteranceEnd) = None
  /\ highlightTimer (step s UtteranceEnd) = highlightTimer s.
Proof.
  intros Ho Hm. cbn [step]. unfold runOnEnd.
  change (onEnd (set_currentUtterance None s)) with (onEnd s). rewrite Ho.
  unfold normalPhaseEnded.
  change (isShadowingMode (set_currentUtterance None s)) with (isShadowingMode s).
  rewrite Hm. destruct s. cbn in *. auto 10.
Qed.

Lemma restart (text : jsstring) (pending : list (Z * jsstring)) (s : state) :
  timeouts s = (restartDelay, text) :: pending -> isShadowingMode s = true ->
  isShadowingMode (step s TimeoutElapsed) = true
  /\ onEnd (step s TimeoutElapsed) = SlowPhaseEnd
  /\ timeouts (step s TimeoutElapsed) = pending
  /\ words (step s TimeoutElapsed) = words s
  /\ currentUtterance (step s TimeoutElapsed) = Some (text, Rate07)
  /\ boundaryFired (step s TimeoutElapsed) = false.
Proof.
  intros Ht Hm. cbn [step]. rewrite Ht. unfold restartElapsed.
  change (isShadowingMode (set_timeouts pending s)) with (isShadowingMode s).
  rewrite Hm. cbn [negb]. unfold TTS_speakSlow.
  match goal with |- context [startHighlighting ?r ?p] =>
    destruct (startHighlighting_writes r p) as (els' & idx & tm & ->) end.
  by destruct s.
Qed.



(** X14. A single word played from the word panel while nothing else plays
    does not touch the display.  From an idle state, where [TTS.speak] finds
    no utterance to cancel and no ticker runs, and with no end of an earlier
    utterance still to come, the boundary notifications of the word and the
    ticks that come in before its end are ignored, and the end of the word
    only takes the single-word mode back: the state after the word is the
    state before it, outside single-word mode, and idle again. *)
Theorem single_word_leaves_display (s : state) (word : jsstring) (es : list event) :
  word <> [] -> idle s ->
  forallb isSignal es = true ->
  run s (ClickPlayWord word :: es) = TTS_speakNormal word (set_isSingleWordMode true s)
  /\ run s (ClickPlayWord word :: es ++ [UtteranceEnd]) = set_isSingleWordMode false s
  /\ idle (run s (ClickPlayWord word :: es ++ [UtteranceEnd])).
Proof.
  intros Hw Hidle Hes.
  assert (forall p : state,
             isSingleWordMode p = true -> highlightTimer p = None -> run p es = p)
    as Hignore.
  { clear Hidle. induction es as [|e es IH]; intros p Hp Ht; [reflexivity|].
    cbn in Hes. apply andb_true_iff in Hes as [He Hes].
    destruct e; try discriminate.
    - change (run p (WordBoundary charIndex charLength :: es))
        with (run (handleWordBoundary charIndex charLength p) es).
      unfold handleWordBoundary. rewrite Hp. by apply IH.
    - change (run p (IntervalElapsed :: es)) with (run (timerTick p) es).
      unfold timerTick. rewrite Ht. by apply IH. }
  assert (run s (ClickPlayWord word :: es)
          = TTS_speakNormal word (set_isSingleWordMode true s)) as H1.
  { change (run s (ClickPlayWord word :: es)) with (run (playWord word s) es).
    unfold playWord. destruct word; [done|]. apply Hignore; [reflexivity|].
    destruct Hidle as (_ & _ & Ht & _). by destruct s. }
  assert (run s (ClickPlayWord word :: es ++ [UtteranceEnd])
          = set_isSingleWordMode false s) as H2.
  { change (run s (ClickPlayWord word :: es ++ [UtteranceEnd]))
      with (run s ((ClickPlayWord word :: es) ++ [UtteranceEnd])).
    rewrite run_app, H1.
    change (run ?p [UtteranceEnd]) with (step p UtteranceEnd).
    destruct Hidle as (_ & _ & _ & _ & _ & Hu & Ho).
    cbn [step]. unfold runOnEnd, handleSpeechEnd. destruct s. cbn in *.
    by rewrite Ho, Hu. }
  split; [exact H1|]. split; [exact H2|]. rewrite H2.
  unfold idle, activeElements in *. by destruct s.
Qed.

Lemma single_word_leaves_display_witness :
  js "world" <> []
  /\ idle (run initial [ClickPlay helloWorld; WordBoundary 0 5; UtteranceEnd])
  /\ run (run initial [ClickPlay helloWorld; WordBoundary 0 5; UtteranceEnd])
       (ClickPlayWord (js "world") :: [WordBoundary 0 5; IntervalElapsed] ++ [UtteranceEnd])
     = set_isSingleWordMode false
         (run initial [ClickPlay helloWorld; WordBoundary 0 5; UtteranceEnd]).
Proof.
  assert (js "world" <> []) as H by discriminate.
  assert (idle (run initial [ClickPlay helloWorld; WordBoundary 0 5; UtteranceEnd]))
    as Hidle by (repeat split; vm_compute; reflexivity).
  split; [exact H|]. split; [exact Hidle|].
  exact (proj1 (proj2 (single_word_leaves_display _ (js "world")
                         [WordBoundary 0 5; IntervalElapsed] H Hidle eq_refl))).
Defined.

(** ** The ticker on its own *)

Lemma iter_fixed {A} (f : A -> A) (x : A) (n : nat) :
  f x = x -> Nat.iter n f x = x.
Proof.
  intros H. induction n as [|n IH]; [reflexivity|].
  change (Nat.iter (S n) f x) with (f (Nat.iter n f x)). by rewrite IH.
Qed.

Lemma iter_add {A} (f : A -> A) (x : A) (n m : nat) :
  Nat.iter (m + n) f x = Nat.iter m f (Nat.iter n f x).
Proof.
  induction m as [|m IH]; [reflexivity|].
  change (Nat.iter (S m + n) f x) with (f (Nat.iter (m + n) f x)). by rewrite IH.
Qed.

Lemma timerTick_off (s : state) : highlightTimer s = None -> timerTick s = s.
Proof. intros H. unfold timerTick. by rewrite H. Qed.

Lemma timerTick_length (s : state) :
  length (wordElements (timerTick s)) = length (wordElements s).
Proof.
  unfold timerTick. destruct (highlightTimer s) as [tm|]; [|reflexivity].
  destruct (boundaryFired s); [reflexivity|].
  destruct (wordIndex tm <? length (wordElements s))%nat.
  - rewrite wordElements_set_highlightTimer. apply highlightWord_fields.
  - by rewrite wordElements_stopHighlighting.
Qed.

Lemma ticks_length (n : nat) (s : state) :
  length (wordElements (Nat.iter n timerTick s)) = length (wordElements s).
Proof.
  induction n as [|n IH]; [reflexivity|].
  change (Nat.iter (S n) timerTick s) with (timerTick (Nat.iter n timerTick s)).
  by rewrite timerTick_length.
Qed.

Lemma ticks_display (n : nat) (s : state) :
  displayInvariant s -> displayInvariant (Nat.iter n timerTick s).
Proof.
  intros H. induction n as [|n IH]; [exact H|].
  change (Nat.iter (S n) timerTick s) with (timerTick (Nat.iter n timerTick s)).
  by apply timerTick_display.
Qed.

(** After as many ticks as there are words the ticker has taken itself off,
    with the last word as the active one. *)
Lemma ticker_runs_out_from (text : jsstring) (r : rate) (p : state) :
  boundaryFired p = false -> currentWordIndex p = -1 ->
  highlightTimer (Nat.iter (length (wordElements p)) timerTick
                    (TTS_speak text r (startHighlighting r p))) = None
  /\ currentWordIndex (Nat.iter (length (wordElements p)) timerTick
                         (TTS_speak text r (startHighlighting r p)))
     = Z.of_nat (length (wordElements p)) - 1.
Proof.
  intros Hb Hc.
  destruct (wordElements p) as [|e0 els] eqn:Hels.
  - cbn [length Nat.iter nat_rect]. unfold startHighlighting. cbv zeta.
    rewrite wordElements_stopHighlighting, Hels. cbn [length Nat.eqb].
    rewrite highlightTimer_TTS_speak, currentWordIndex_TTS_speak,
      currentWordIndex_stopHighlighting, Hc.
    split; [apply stopHighlighting_fields | reflexivity].
  - set (n := length els).
    assert (wordElements p <> []) as Hne by (rewrite Hels; discriminate).
    destruct (startHighlighting_begins r p Hne) as (Hb0 & Hl0 & Ht0 & Hc0).
    rewrite Hb in Hb0.
    destruct (ticks_advance r (S n) n (TTS_speak text r (startHighlighting r p)))
      as (Hf & Hlen & Htm & Hcur); autorewrite with session; auto.
    { rewrite Hl0, Hels. reflexivity. }
    change (length (e0 :: els)) with (S n).
    change (Nat.iter (S n) timerTick (TTS_speak text r (startHighlighting r p)))
      with (timerTick (Nat.iter n timerTick (TTS_speak text r (startHighlighting r p)))).
    revert Hf Hlen Htm Hcur.
    generalize (Nat.iter n timerTick (TTS_speak text r (startHighlighting r p))).
    intros q Hf Hlen Htm Hcur. unfold timerTick. rewrite Htm, Hf. cbn [wordIndex].
    rewrite Hlen, Nat.ltb_irrefl, currentWordIndex_stopHighlighting.
    split; [apply stopHighlighting_fields | lia].
Qed.

(** X7. Left to itself the ticker comes to an end: after a play or slow
    request with text, as many ticks as the text has words take the ticker
    off; the last word (if there is a word) is then the active one and stays
    highlighted, and every further tick changes nothing. *)
Theorem ticker_runs_out (s : state) (textInput : jsstring) (m : nat) :
  getCurrentText textInput <> [] ->
  (length (List.filter isWordToken (tokenize (getCurrentText textInput))) <= m)%nat ->
  (highlightTimer (Nat.iter m timerTick (handlePlay textInput s)) = None
   /\ currentWordIndex (Nat.iter m timerTick (handlePlay textInput s))
      = Z.of_nat (length (List.filter isWordToken
                            (tokenize (getCurrentText textInput)))) - 1
   /\ singleActiveHighlight (Nat.iter m timerTick (handlePlay textInput s)))
  /\ (highlightTimer (Nat.iter m timerTick (handleSlow textInput s)) = None
      /\ currentWordIndex (Nat.iter m timerTick (handleSlow textInput s))
         = Z.of_nat (length (List.filter isWordToken
                               (tokenize (getCurrentText textInput)))) - 1
      /\ singleActiveHighlight (Nat.iter m timerTick (handleSlow textInput s))).
Proof.
  intros Hne Hm.
  assert (forall (r : rate) (message : string),
             let s0 := TTS_speak (getCurrentText textInput) r
                         (startHighlighting r
                            (updateStatus message
                               (disableButtons true
                                  (prepareDisplay (getCurrentText textInput) s)))) in
             highlightTimer (Nat.iter m timerTick s0) = None
             /\ currentWordIndex (Nat.iter m timerTick s0)
                = Z.of_nat (length (List.filter isWordToken
                                      (tokenize (getCurrentText textInput)))) - 1
             /\ singleActiveHighlight (Nat.iter m timerTick s0)) as Hboth.
  { intros r message s0.
    pose proof (prepareDisplay_display (getCurrentText textInput) s) as (_ & _ & Hlen).
    change (words (prepareDisplay (getCurrentText textInput) s))
      with (tokenize (getCurrentText textInput)) in Hlen.
    rewrite <- Hlen in *.
    pose proof (playback_display (getCurrentText textInput) r message s) as Hinv.
    fold s0 in Hinv.
    destruct (ticker_runs_out_from (getCurrentText textInput) r
                (updateStatus message
                   (disableButtons true (prepareDisplay (getCurrentText textInput) s))))
      as [Ht Hc]; [reflexivity | reflexivity |].
    rewrite wordElements_updateStatus, wordElements_disableButtons in Ht, Hc.
    fold s0 in Ht, Hc.
    set (n := length (wordElements (prepareDisplay (getCurrentText textInput) s))) in *.
    assert (Nat.iter m timerTick s0 = Nat.iter n timerTick s0) as ->.
    { replace m with ((m - n) + n)%nat by lia. rewrite iter_add.
      apply iter_fixed, timerTick_off, Ht. }
    split; [exact Ht|]. split; [exact Hc|].
    destruct (ticks_display n s0 Hinv) as (H1 & H2 & _).
    split; [by apply highlightAtIndex_single | exact H2]. }
  unfold handlePlay, handleSlow.
  destruct (getCurrentText textInput) as [|c t] eqn:Htext; [done|].
  split; [apply (Hboth Rate10) | apply (Hboth Rate07)].
Qed.

Lemma ticker_runs_out_witness :
  getCurrentText helloWorld <> []
  /\ (length (List.filter isWordToken (tokenize (getCurrentText helloWorld))) <= 5)%nat
  /\ highlightTimer (Nat.iter 5 timerTick (handlePlay helloWorld initial)) = None
  /\ currentWordIndex (Nat.iter 5 timerTick (handlePlay helloWorld initial))
     = Z.of_nat (length (List.filter isWordToken
                           (tokenize (getCurrentText helloWorld)))) - 1.
Proof.
  assert (getCurrentText helloWorld <> []) as H1 by (vm_compute; discriminate).
  assert (length (List.filter isWordToken (tokenize (getCurrentText helloWorld))) <= 5)%nat
    as H2 by (vm_compute; lia).
  split; [exact H1|]. split; [exact H2|].
  destruct (proj1 (ticker_runs_out initial helloWorld 5 H1 H2)) as (Ht & Hc & _).
  split; [exact Ht | exact Hc].
Defined.

(** ** The display and the boundary walk *)

Lemma renderWord_fold (ws : list jsstring) (acc : list node * list element) :
  wordSpanIndices (fold_left renderWord ws acc).1
  = wordSpanIndices acc.1
    ++ seq (length acc.2) (length (List.filter isWordToken ws))
  /\ map textContent (fold_left renderWord ws acc).2
     = map textContent acc.2 ++ List.filter isWordToken ws
  /\ length (fold_left renderWord ws acc).1 = (length acc.1 + length ws)%nat.
Proof.
  revert acc. induction ws as [|w ws IH]; intros acc.
  { cbn. rewrite !app_nil_r. auto with lia. }
  cbn [fold_left List.filter].
  destruct (IH (renderWord acc w)) as (-> & -> & ->).
  unfold renderWord, isWordToken.
  destruct (isWhitespaceToken w); [|destruct (isNonWordToken w)];
    cbn [fst snd orb negb length].
  - unfold wordSpanIndices. rewrite flat_map_app, length_app. cbn.
    rewrite app_nil_r. repeat split; lia.
  - unfold wordSpanIndices. rewrite flat_map_app, length_app. cbn.
    rewrite app_nil_r. repeat split; lia.
  - unfold wordSpanIndices. rewrite flat_map_app, !length_app, map_app. cbn.
    rewrite <- !app_assoc. cbn. repeat split; try lia.
    do 3 f_equal. lia.
Qed.

(** X6. Word indexing: in the display that [prepareDisplay] builds there is
    one node for each token; the word spans carry the indices 0, 1, ..., N-1
    in the order of the text, N being the number of word elements, and the
    word element with index i holds the text of the i-th token that is
    neither whitespace nor punctuation. *)
Theorem display_word_indexing (text : jsstring) (s : state) :
  length (shadowingDisplay (prepareDisplay text s)) = length (tokenize text)
  /\ wordSpanIndices (shadowingDisplay (prepareDisplay text s))
     = seq 0 (length (wordElements (prepareDisplay text s)))
  /\ map textContent (wordElements (prepareDisplay text s))
     = List.filter isWordToken (tokenize text)
  /\ Forall (fun word => exists c, In c word /\ isWordChar c = true)
       (map textContent (wordElements (prepareDisplay text s))).
Proof.
  destruct (renderWord_fold (tokenize text) ([], [])) as (H1 & H2 & H3).
  cbn [fst snd length app map wordSpanIndices flat_map] in H1, H2, H3.
  change (shadowingDisplay (prepareDisplay text s))
    with (fold_left renderWord (tokenize text) ([], [])).1.
  change (wordElements (prepareDisplay text s))
    with (fold_left renderWord (tokenize text) ([], [])).2.
  split; [exact H3|]. split.
  { rewrite H1. f_equal. rewrite <- (length_map textContent), H2. reflexivity. }
  split; [exact H2|].
  rewrite H2. apply Forall_forall. intros word [Hin Hw]%list_elem_of_In%filter_In.
  apply in_split in Hin as (pre & post & Hin).
  destruct (matchAll_runs (length text) text pre post word (le_n _) Hin)
    as (c & word' & -> & _).
  unfold isWordToken, isWhitespaceToken, isNonWordToken in Hw.
  apply negb_true_iff, orb_false_iff in Hw as [_ Hw].
  rewrite forallb_negb_existsb in Hw. apply negb_false_iff, existsb_exists in Hw.
  exact Hw.
Qed.

Lemma findSpokenWord_from (charIndex : Z) (ws : list jsstring)
    (charCount wordIdx found : Z) :
  findSpokenWord charIndex ws charCount wordIdx = Some found ->
  charCount <= charIndex.
Proof.
  revert charCount wordIdx.
  induction ws as [|w ws IH]; intros charCount wordIdx H; [discriminate|].
  cbn [findSpokenWord] in H.
  destruct (isWhitespaceToken w || isNonWordToken w).
  - apply IH in H. lia.
  - destruct (Z.leb_spec charCount charIndex) as [Hle|]; [exact Hle|].
    cbn [andb] in H. apply IH in H. destruct ws; lia.
Qed.

Lemma findSpokenWord_monotone (ws : list jsstring)
    (charIndex1 charIndex2 charCount wordIdx found1 found2 : Z) :
  charIndex1 <= charIndex2 ->
  findSpokenWord charIndex1 ws charCount wordIdx = Some found1 ->
  findSpokenWord charIndex2 ws charCount wordIdx = Some found2 ->
  found1 <= found2.
Proof.
  intros Hle. revert charCount wordIdx.
  induction ws as [|w ws IH]; intros charCount wordIdx H1 H2; [discriminate|].
  cbn [findSpokenWord] in H1, H2.
  destruct (isWhitespaceToken w || isNonWordToken w); [exact (IH _ _ H1 H2)|].
  destruct ((charCount <=? charIndex1)
            && (charIndex1 <? charCount + Z.of_nat (length w))) eqn:Hin1.
  - injection H1 as <-.
    destruct ((charCount <=? charIndex2)
              && (charIndex2 <? charCount + Z.of_nat (length w))).
    + injection H2 as <-. lia.
    + apply findSpokenWord_bound in H2. lia.
  - destruct ((charCount <=? charIndex2)
              && (charIndex2 <? charCount + Z.of_nat (length w))) eqn:Hin2.
    + exfalso. apply findSpokenWord_from in H1.
      apply andb_true_iff in Hin2 as [_ Hlt%Z.ltb_lt]. destruct ws; lia.
    + exact (IH _ _ H1 H2).
Qed.

(** X12. The walk of [handleWordBoundary] never goes backwards: of two
    offsets that both resolve to a word, the larger resolves to the same or a
    later word; what it resolves to is the index of a word element; the
    length reported with the offset plays no part; and an offset below zero
    resolves to nothing, so that the notification only sets the flag. *)
Theorem boundary_walk_monotone (s : state) (charIndex1 charIndex2 : Z)
    (charLength1 charLength2 : Z) (found1 found2 : Z) :
  (charIndex1 <= charIndex2 ->
   findSpokenWord charIndex1 (words s) 0 0 = Some found1 ->
   findSpokenWord charIndex2 (words s) 0 0 = Some found2 ->
   found1 <= found2
   /\ 0 <= found1 < Z.of_nat (length (List.filter isWordToken (words s)))
   /\ (isSingleWordMode s = false ->
       currentWordIndex (handleWordBoundary charIndex1 charLength1 s) = found1
       /\ currentWordIndex (handleWordBoundary charIndex2 charLength2 s) = found2))
  /\ handleWordBoundary charIndex1 charLength1 s
     = handleWordBoundary charIndex1 charLength2 s
  /\ (charIndex1 < 0 -> isSingleWordMode s = false ->
      handleWordBoundary charIndex1 charLength1 s = set_boundaryFired true s).
Proof.
  split; [|split; [reflexivity|]].
  - intros Hle H1 H2.
    split; [exact (findSpokenWord_monotone _ _ _ _ _ _ _ Hle H1 H2)|].
    split; [apply findSpokenWord_bound in H1; lia|].
    intros Hs. unfold handleWordBoundary. rewrite Hs. cbv zeta.
    rewrite words_set_boundaryFired, H1, H2.
    split; apply highlightWord_fields.
  - intros Hneg Hs. unfold handleWordBoundary. rewrite Hs. cbv zeta.
    rewrite words_set_boundaryFired.
    destruct (findSpokenWord charIndex1 (words s) 0 0) as [found|] eqn:Hf;
      [|reflexivity].
    apply findSpokenWord_from in Hf. lia.
Qed.

Lemma boundary_walk_monotone_witness :
  0 <= 7
  /\ findSpokenWord 0 (words playing) 0 0 = Some 0
  /\ findSpokenWord 7 (words playing) 0 0 = Some 1
  /\ 0 <= 1.
Proof.
  assert (0 <= 7) as H0 by lia.
  assert (findSpokenWord 0 (words playing) 0 0 = Some 0) as H1 by reflexivity.
  assert (findSpokenWord 7 (words playing) 0 0 = Some 1) as H2 by reflexivity.
  split; [exact H0|]. split; [exact H1|]. split; [exact H2|].
  exact (proj1 (proj1 (boundary_walk_monotone playing 0 7 5 5 0 1) H0 H1 H2)).
Defined.

(** ** The text that is played *)

Lemma trimStart_head (x : jsstring) (c : codeunit) (r : jsstring) :
  trimStart x = c :: r -> isSpace c = false.
Proof.
  induction x as [|d x IH]; [discriminate|]. cbn.
  destruct (isSpace d) eqn:Hd; [exact IH|]. by intros [= <- _].
Qed.

Lemma trimStart_suffix (x : jsstring) : exists pre, x = pre ++ trimStart x.
Proof.
  induction x as [|d x [pre IH]]; [by exists []|]. cbn.
  destruct (isSpace d); [|by exists []].
  exists (d :: pre). cbn. by rewrite <- IH.
Qed.

(** What [trim] returns neither begins nor ends with whitespace. *)
Lemma trim_ends (x : jsstring) :
  (forall c r, trim x = c :: r -> isSpace c = false)
  /\ (forall r c, trim x = r ++ [c] -> isSpace c = false).
Proof.
  unfold trim. set (y := rev (trimStart x)).
  split.
  - intros c r Hrev.
    apply (f_equal (@rev N)) in Hrev. rewrite rev_involutive in Hrev. cbn in Hrev.
    destruct (trimStart_suffix y) as [pre Hy]. rewrite Hrev, app_assoc in Hy.
    subst y. apply (f_equal (@rev N)) in Hy.
    rewrite rev_involutive, rev_app_distr in Hy. cbn in Hy.
    exact (trimStart_head _ _ _ Hy).
  - intros r c Hrev.
    apply (f_equal (@rev N)) in Hrev.
    rewrite rev_involutive, rev_app_distr in Hrev. cbn in Hrev.
    exact (trimStart_head _ _ _ Hrev).
Qed.

Lemma forallb_last {A} (p : A -> bool) (l : list A) (x : A) :
  forallb p (l ++ [x]) = true -> p x = true.
Proof. rewrite forallb_app. cbn. intros [_ H]%andb_true_iff. by rewrite andb_true_r in H. Qed.

(** X13. The text that is played is trimmed, so its tokens neither begin nor
    end with whitespace: the first and the last node of the display are a
    word or punctuation, never the blank of a whitespace token. *)
Theorem played_text_has_no_outer_blank (textInput : jsstring) :
  (forall (t : jsstring) (rest : list jsstring),
      tokenize (getCurrentText textInput) = t :: rest -> classify t <> Whitespace)
  /\ (forall (t : jsstring) (before : list jsstring),
        tokenize (getCurrentText textInput) = before ++ [t] ->
        classify t <> Whitespace).
Proof.
  destruct (trim_ends textInput) as [Hfirst Hlast].
  unfold getCurrentText.
  assert (forall t, classify t = Whitespace -> t <> [] /\ forallb isSpace t = true)
    as Hws.
  { intros t. unfold classify, isWhitespaceToken.
    destruct t as [|c t]; [by destruct (isNonWordToken [])|].
    destruct (forallb isSpace (c :: t)); [done|].
    by destruct (isNonWordToken (c :: t)). }
  split.
  - intros t rest Htok Hcls. apply Hws in Hcls as [_ Hall].
    destruct (matchAll_runs _ _ [] rest t (le_n _) Htok) as (c & t' & -> & _ & Hcat).
    cbn in Hcat, Hall. apply andb_true_iff in Hall as [Hc _].
    symmetry in Hcat. apply Hfirst in Hcat. congruence.
  - intros t before Htok Hcls. apply Hws in Hcls as [Hne Hall].
    destruct (matchAll_runs _ _ before [] t (le_n _) Htok) as (c & t' & -> & _ & Hcat).
    cbn [concat] in Hcat. rewrite app_nil_r in Hcat.
    destruct (exists_last Hne) as (front & d & Hd). rewrite Hd in Hcat, Hall.
    rewrite app_assoc in Hcat. symmetry in Hcat. apply Hlast in Hcat.
    apply forallb_last in Hall. congruence.
Qed.

Lemma played_text_has_no_outer_blank_witness :
  tokenize (getCurrentText (js " Hello world! ")) = js "Hello" :: [js " "; js "world"; js "!"]
  /\ classify (js "Hello") <> Whitespace.
Proof.
  assert (tokenize (getCurrentText (js " Hello world! "))
          = js "Hello" :: [js " "; js "world"; js "!"]) as H by (vm_compute; reflexivity).
  split; [exact H|].
  exact (proj1 (played_text_has_no_outer_blank (js " Hello world! ")) _ _ H).
Defined.

(** X15. Which keys of the store can be found.  A key made of the letters
    [a-z] only, and not empty, is found as itself with its record, without
    any stemming; a key with any other character in it (a capital, a digit, a
    hyphen, an apostrophe) is never what a lookup returns, whatever the
    input. *)
Theorem store_keys_found (wordData : gmap jsstring Dictionary.entry)
    (key : jsstring) (e : Dictionary.entry) :
  wordData !! key = Some e ->
  (key <> [] -> forallb isLower key = true ->
   Dictionary.lookup wordData key = Some (Dictionary.mkWordInfo key None (Some e))
   /\ Dictionary.has wordData key = true)
  /\ (forallb isLower key = false ->
      forall (w : jsstring) (info : Dictionary.wordInfo),
        Dictionary.lookup wordData w = Some info -> Dictionary.word info <> key).
Proof.
  intros Hkey. split.
  - intros Hne Hlow.
    assert (Dictionary.normalize key = key) as Hn.
    { unfold Dictionary.normalize. rewrite (toLowerCase_lower _ Hlow).
      by apply filter_all. }
    assert (Dictionary.lookup wordData key
            = Some (Dictionary.mkWordInfo key None (Some e))) as Hl.
    { destruct key as [|c t]; [done|]. cbn [Dictionary.lookup]. cbv zeta.
      rewrite Hn. unfold Dictionary.get. by rewrite Hkey. }
    split; [exact Hl|]. unfold Dictionary.has. by rewrite Hl.
  - intros Hlow w info Hinfo Heq.
    destruct (lookup_key _ _ _ Hinfo) as (Hw & _). congruence.
Qed.

Lemma store_keys_found_witness :
  ({[ js "run" := Dictionary.mkEntry None None None [] ]}
     : gmap jsstring Dictionary.entry) !! js "run"
  = Some (Dictionary.mkEntry None None None [])
  /\ js "run" <> [] /\ forallb isLower (js "run") = true
  /\ Dictionary.has {[ js "run" := Dictionary.mkEntry None None None [] ]} (js "run")
     = true.
Proof.
  assert (({[ js "run" := Dictionary.mkEntry None None None [] ]}
             : gmap jsstring Dictionary.entry) !! js "run"
          = Some (Dictionary.mkEntry None None None [])) as H1 by (vm_compute; reflexivity).
  assert (js "run" <> []) as H2 by discriminate.
  assert (forallb isLower (js "run") = true) as H3 by reflexivity.
  split; [exact H1|]. split; [exact H2|]. split; [exact H3|].
  exact (proj2 (proj1 (store_keys_found _ _ _ H1) H2 H3)).
Defined.
